(** * ishap: a fixed-timestep runner (include/ishap/ishap.hpp)

    A shallow embedding of [ishap::timestep::FixedTimestepRunner] and the
    properties of its accumulator algorithm.

    Conventions of the embedding.
    - [std::chrono::nanoseconds] is a signed 64-bit tick count: a [Z] that
      every arithmetic operation brings back into range with [wrap64].
    - [size_t] is an [N]; the one place where the code multiplies with it
      ([step * safety_max_accumulator_overflow]) wraps explicitly.
    - [double] is IEEE 754 binary64, taken from the Standard Library's
      [SpecFloat] (53 bits of precision, [emax = 1024]).
    - [std::function] members are [option]s of functions over a caller-owned
      world [W]; an empty [std::function] is [None].  The step function
      reports whether it returned or threw.  Every call made to user code is
      appended to a call log, so that "is invoked" can be stated.
      The error function is taken to return: one that throws would end the
      program through [std::terminate], since [advance] is [noexcept]; the
      module [Noexcept] follows that case.  The callbacks act on [W] only;
      they do not call back into the runner.
    - [steady_clock::now()] is an explicit argument of the operations that
      read the clock.
    - Signed overflow and the conversion of a NaN, an infinity or an
      out-of-range double to [int64_t] are undefined in C++.  The embedding
      gives them the value the usual 64-bit targets compute (wrap-around and
      [INT64_MIN]); no counterexample below relies on them, and the theorems
      that need their absence say so in a hypothesis. *)

From Stdlib Require Import ZArith NArith QArith Bool List Lia.
From Stdlib Require Import Floats.SpecFloat.
Import ListNotations.

Local Open Scope Z_scope.

(** ** Machine integers *)

Module Int64.

Definition min_signed : Z := - 2 ^ 63.
Definition max_signed : Z := 2 ^ 63 - 1.

(** Two's-complement reduction into [min_signed .. max_signed]. *)
Definition wrap64 (z : Z) : Z := (z + 2 ^ 63) mod 2 ^ 64 - 2 ^ 63.

Definition in_range (z : Z) : Prop := min_signed <= z <= max_signed.

Definition add (a b : Z) : Z := wrap64 (a + b).
Definition sub (a b : Z) : Z := wrap64 (a - b).

End Int64.

(** ** Doubles *)

Module Double.

Definition prec : Z := 53.
Definition emax : Z := 1024.

Definition double : Type := spec_float.

(** [static_cast<double>(n)] for an integer [n]: round to nearest, ties to
    even. *)
Definition of_Z (z : Z) : double := binary_normalize prec emax z 0 false.

Definition mul : double -> double -> double := SFmul prec emax.
Definition div : double -> double -> double := SFdiv prec emax.
Definition eqb : double -> double -> bool := SFeqb.
Definition ltb : double -> double -> bool := SFltb.
Definition leb : double -> double -> bool := SFleb.

Definition zero : double := S754_zero false.
Definition one : double := of_Z 1.

(** The value the hardware conversion leaves when the operand is a NaN, an
    infinity or out of the range of [int64_t] (the C++ standard leaves the
    conversion undefined there). *)
Definition indefinite : Z := Int64.min_signed.

(** The integer part of a finite double. *)
Definition truncate (d : double) : Z :=
  match d with
  | S754_finite s m e =>
      let mag := Z.shiftl (Zpos m) e in
      if s then - mag else mag
  | _ => 0
  end.

(** The doubles that [static_cast<int64_t>] converts: the finite ones whose
    integer part is an [int64_t]. *)
Definition fits_int64 (d : double) : bool :=
  match d with
  | S754_zero _ => true
  | S754_finite _ _ _ =>
      (Int64.min_signed <=? truncate d) && (truncate d <=? Int64.max_signed)
  | S754_infinity _ | S754_nan => false
  end.

(** [static_cast<int64_t>(d)]: truncation toward zero. *)
Definition to_int64 (d : double) : Z :=
  if fits_int64 d then truncate d else indefinite.

(** A finite double whose sign bit is clear. *)
Definition nonneg_finite (d : double) : Prop :=
  match d with
  | S754_zero _ => True
  | S754_finite s _ _ => s = false
  | S754_infinity _ | S754_nan => False
  end.

(** A double that is not negative: its sign bit is clear, or it is a zero
    or a NaN. *)
Definition sign_clear (d : double) : Prop :=
  match d with
  | S754_zero _ | S754_nan => True
  | S754_finite s _ _ | S754_infinity s => s = false
  end.

End Double.

Import Double(double).

(** ** Configuration *)

Definition nanoseconds : Type := Z.
Definition size_t : Type := N.

Definition k_step_60hz : nanoseconds := 16666667.
Definition k_step_120hz : nanoseconds := 8333333.
Definition k_step_240hz : nanoseconds := 4166667.
Definition k_default_max_delta : nanoseconds := 250000000.
Definition k_default_max_substeps : size_t := 8%N.
Definition k_default_max_accumulator_overflow : size_t := 3%N.
Definition k_default_time_scale : double := Double.one.

Module Config.

Record t : Type := mk {
  step : nanoseconds;
  time_scale : double;
  safety_max_delta : nanoseconds;
  safety_max_substeps : size_t;
  safety_max_accumulator_overflow : size_t
}.

Definition default : t :=
  mk k_step_60hz k_default_time_scale k_default_max_delta
     k_default_max_substeps k_default_max_accumulator_overflow.

Definition with_step (s : nanoseconds) (c : t) : t :=
  mk s (time_scale c) (safety_max_delta c) (safety_max_substeps c)
     (safety_max_accumulator_overflow c).

Definition with_time_scale (s : double) (c : t) : t :=
  mk (step c) s (safety_max_delta c) (safety_max_substeps c)
     (safety_max_accumulator_overflow c).

Definition with_safety_max_delta (d : nanoseconds) (c : t) : t :=
  mk (step c) (time_scale c) d (safety_max_substeps c)
     (safety_max_accumulator_overflow c).

Definition with_safety_max_substeps (n : size_t) (c : t) : t :=
  mk (step c) (time_scale c) (safety_max_delta c) n
     (safety_max_accumulator_overflow c).

End Config.

(** ** Calls into user code *)

(** How a call of the step function ends. *)
Inductive outcome : Type := Returned | Threw.

(** One entry of the call log. *)
Inductive call : Type :=
| StepCall (dt : nanoseconds) (o : outcome)
| ErrorCall.

Definition is_step_call (c : call) : bool :=
  match c with StepCall _ _ => true | ErrorCall => false end.

Definition is_throwing_call (c : call) : bool :=
  match c with StepCall _ Threw => true | _ => false end.

Definition is_error_call (c : call) : bool :=
  match c with ErrorCall => true | _ => false end.

Definition count (p : call -> bool) (l : list call) : nat :=
  length (filter p l).

(** ** The runner *)

Section Runner.

(** The caller's state, which the callbacks read and change. *)
Context {W : Type}.

(** [std::function<void(std::chrono::nanoseconds)>]: the call changes the
    world and either returns or throws. *)
Definition OnStepFunction : Type := nanoseconds -> W -> W * outcome.

(** [std::function<void()>]. *)
Definition OnErrorFunction : Type := W -> W.

Record FixedTimestepRunner : Type := mkRunner {
  m_on_update_function : option OnStepFunction;
  m_config : Config.t;
  m_last : Z;
  m_accumulator : nanoseconds;
  m_paused : bool;
  m_step_error_caught : bool;
  m_on_error_function : option OnErrorFunction;
  m_last_delta : nanoseconds;
  m_last_steps : size_t
}.

(** *** Member assignment *)

Definition with_on_update_function fn (r : FixedTimestepRunner) :=
  mkRunner fn (m_config r) (m_last r) (m_accumulator r) (m_paused r)
    (m_step_error_caught r) (m_on_error_function r) (m_last_delta r)
    (m_last_steps r).

Definition with_config c (r : FixedTimestepRunner) :=
  mkRunner (m_on_update_function r) c (m_last r) (m_accumulator r)
    (m_paused r) (m_step_error_caught r) (m_on_error_function r)
    (m_last_delta r) (m_last_steps r).

Definition with_last t (r : FixedTimestepRunner) :=
  mkRunner (m_on_update_function r) (m_config r) t (m_accumulator r)
    (m_paused r) (m_step_error_caught r) (m_on_error_function r)
    (m_last_delta r) (m_last_steps r).

Definition with_accumulator a (r : FixedTimestepRunner) :=
  mkRunner (m_on_update_function r) (m_config r) (m_last r) a (m_paused r)
    (m_step_error_caught r) (m_on_error_function r) (m_last_delta r)
    (m_last_steps r).

Definition with_paused p (r : FixedTimestepRunner) :=
  mkRunner (m_on_update_function r) (m_config r) (m_last r)
    (m_accumulator r) p (m_step_error_caught r) (m_on_error_function r)
    (m_last_delta r) (m_last_steps r).

Definition with_step_error_caught b (r : FixedTimestepRunner) :=
  mkRunner (m_on_update_function r) (m_config r) (m_last r)
    (m_accumulator r) (m_paused r) b (m_on_error_function r)
    (m_last_delta r) (m_last_steps r).

Definition with_on_error_function fn (r : FixedTimestepRunner) :=
  mkRunner (m_on_update_function r) (m_config r) (m_last r)
    (m_accumulator r) (m_paused r) (m_step_error_caught r) fn
    (m_last_delta r) (m_last_steps r).

Definition with_last_delta d (r : FixedTimestepRunner) :=
  mkRunner (m_on_update_function r) (m_config r) (m_last r)
    (m_accumulator r) (m_paused r) (m_step_error_caught r)
    (m_on_error_function r) d (m_last_steps r).

Definition with_last_steps n (r : FixedTimestepRunner) :=
  mkRunner (m_on_update_function r) (m_config r) (m_last r)
    (m_accumulator r) (m_paused r) (m_step_error_caught r)
    (m_on_error_function r) (m_last_delta r) n.

(** *** Construction and reset *)

(** [reset(start_now)]; [now] is what [steady_clock::now()] returns. *)
Definition reset (start_now : bool) (now : Z) (r : FixedTimestepRunner)
  : FixedTimestepRunner :=
  let r := with_accumulator 0 r in
  let r := with_last_delta 0 r in
  let r := with_last_steps 0%N r in
  let r := with_paused false r in
  if start_now then with_last now r else r.

(** [FixedTimestepRunner() = default]: the member initialisers. *)
Definition default_runner : FixedTimestepRunner :=
  mkRunner None Config.default 0 0 false false None 0 0%N.

(** [FixedTimestepRunner(fn, config)]. *)
Definition make_runner (fn : option OnStepFunction) (config : Config.t)
  (now : Z) : FixedTimestepRunner :=
  reset true now
    (mkRunner fn config 0 0 false false None 0 0%N).

(** *** Configuration *)

(** [duration_cast<nanoseconds>(duration<double>(x))]: seconds to
    nanoseconds, in double, then truncated. *)
Definition seconds_to_nanoseconds (x : double) : nanoseconds :=
  Double.to_int64 (Double.mul x (Double.of_Z 1000000000)).

Definition set_hz (hz : double) (r : FixedTimestepRunner) :=
  if Double.leb hz Double.zero then r
  else with_config
         (Config.with_step
            (seconds_to_nanoseconds (Double.div Double.one hz))
            (m_config r)) r.

Definition hz (r : FixedTimestepRunner) : double :=
  Double.div Double.one
    (Double.div (Double.of_Z (Config.step (m_config r)))
                (Double.of_Z 1000000000)).

Definition set_step (s : nanoseconds) (r : FixedTimestepRunner) :=
  if s <=? 0 then r
  else with_config (Config.with_step s (m_config r)) r.

Definition step (r : FixedTimestepRunner) : nanoseconds :=
  Config.step (m_config r).

Definition set_max_delta (d : nanoseconds) (r : FixedTimestepRunner) :=
  if d <=? 0 then r
  else with_config (Config.with_safety_max_delta d (m_config r)) r.

Definition max_delta (r : FixedTimestepRunner) : nanoseconds :=
  Config.safety_max_delta (m_config r).

Definition set_max_substeps (n : size_t) (r : FixedTimestepRunner) :=
  with_config
    (Config.with_safety_max_substeps (if (0 <? n)%N then n else 1%N)
       (m_config r)) r.

Definition max_substeps (r : FixedTimestepRunner) : size_t :=
  Config.safety_max_substeps (m_config r).

Definition set_time_scale (s : double) (r : FixedTimestepRunner) :=
  let s := if Double.ltb s Double.zero then Double.zero else s in
  with_config (Config.with_time_scale s (m_config r)) r.

Definition time_scale (r : FixedTimestepRunner) : double :=
  Config.time_scale (m_config r).

Definition pause (p : bool) (r : FixedTimestepRunner) := with_paused p r.
Definition paused (r : FixedTimestepRunner) : bool := m_paused r.
Definition resume (r : FixedTimestepRunner) := with_paused false r.
Definition toggle_pause (r : FixedTimestepRunner) :=
  with_paused (negb (m_paused r)) r.

(** *** Telemetry *)

Definition accumulator (r : FixedTimestepRunner) : nanoseconds :=
  m_accumulator r.
Definition last_delta (r : FixedTimestepRunner) : nanoseconds :=
  m_last_delta r.
Definition last_steps (r : FixedTimestepRunner) : size_t := m_last_steps r.

Definition alpha (r : FixedTimestepRunner) : double :=
  Double.div (Double.of_Z (m_accumulator r))
             (Double.of_Z (Config.step (m_config r))).

Definition step_error_caught (r : FixedTimestepRunner) : bool :=
  m_step_error_caught r.

Definition set_step_function (fn : option OnStepFunction)
  (r : FixedTimestepRunner) := with_on_update_function fn r.

Definition has_step_function (r : FixedTimestepRunner) : bool :=
  match m_on_update_function r with Some _ => true | None => false end.

Definition set_error_function (fn : option OnErrorFunction)
  (r : FixedTimestepRunner) := with_on_error_function fn r.

Definition has_error_function (r : FixedTimestepRunner) : bool :=
  match m_on_error_function r with Some _ => true | None => false end.

(** *** The runner together with the world it calls into *)

Record Machine : Type := mkMachine {
  runner : FixedTimestepRunner;
  world : W;
  calls : list call
}.

Definition with_runner (r : FixedTimestepRunner) (m : Machine) : Machine :=
  mkMachine r (world m) (calls m).

(** The body of the [try]/[catch] of the step loop. *)
Definition call_step (m : Machine) : Machine :=
  let r := runner m in
  match m_on_update_function r with
  | None => m
  | Some fn =>
      let dt := Config.step (m_config r) in
      match fn dt (world m) with
      | (w, Returned) => mkMachine r w (calls m ++ [StepCall dt Returned])
      | (w, Threw) =>
          let r := with_step_error_caught true r in
          match m_on_error_function r with
          | None => mkMachine r w (calls m ++ [StepCall dt Threw])
          | Some on_error =>
              mkMachine r (on_error w)
                (calls m ++ [StepCall dt Threw; ErrorCall])
          end
      end
  end.

(** The loop condition. *)
Definition step_due (steps : size_t) (r : FixedTimestepRunner) : bool :=
  (Config.step (m_config r) <=? m_accumulator r)
  && (steps <? Config.safety_max_substeps (m_config r))%N.

(** One iteration of the loop body. *)
Definition step_once (m : Machine) : Machine :=
  let m := call_step m in
  let r := runner m in
  with_runner
    (with_accumulator
       (Int64.sub (m_accumulator r) (Config.step (m_config r))) r) m.

(** The [while] loop; [fuel] bounds the number of iterations. *)
Fixpoint step_loop (fuel : nat) (steps : size_t) (m : Machine)
  : size_t * Machine :=
  match fuel with
  | O => (steps, m)
  | S fuel' =>
      if step_due steps (runner m)
      then step_loop fuel' (steps + 1)%N (step_once m)
      else (steps, m)
  end.

(** [m_config.step * m_config.safety_max_accumulator_overflow]: the product
    is formed in [uint64_t] and converted back to the signed tick count. *)
Definition max_acc (c : Config.t) : nanoseconds :=
  Int64.wrap64
    (Config.step c * Z.of_N (Config.safety_max_accumulator_overflow c)).

(** The clamp of [advance]. *)
Definition clamp_delta (c : Config.t) (raw_elapsed : nanoseconds)
  : nanoseconds :=
  if Config.safety_max_delta c <? raw_elapsed
  then Config.safety_max_delta c else raw_elapsed.

(** The time scaling of [advance]. *)
Definition scale_delta (c : Config.t) (dt : nanoseconds) : nanoseconds :=
  if negb (Double.eqb (Config.time_scale c) Double.one)
  then Double.to_int64 (Double.mul (Double.of_Z dt) (Config.time_scale c))
  else dt.

(** The overflow trim of [advance]. *)
Definition trim (r : FixedTimestepRunner) : FixedTimestepRunner :=
  if max_acc (m_config r) <? m_accumulator r
  then with_accumulator (max_acc (m_config r)) r else r.

(** [advance] on a runner that is not paused, from the reset of the error
    flag to the recording of [m_last_steps]. *)
Definition accumulate_and_step (raw_elapsed : nanoseconds) (m : Machine)
  : Machine :=
  let r := runner m in
  let r := with_step_error_caught false r in
  let r := with_last_delta raw_elapsed r in
  let dt := clamp_delta (m_config r) raw_elapsed in
  let dt := scale_delta (m_config r) dt in
  let r := with_accumulator (Int64.add (m_accumulator r) dt) r in
  let '(steps, m) :=
    step_loop (N.to_nat (Config.safety_max_substeps (m_config r))) 0%N
              (with_runner r m) in
  with_runner (with_last_steps steps (runner m)) m.

Definition advance (raw_elapsed : nanoseconds) (m : Machine)
  : double * Machine :=
  let r := runner m in
  if m_paused r then
    let r := with_last_steps 0%N (with_last_delta 0 r) in
    (alpha r, with_runner r m)
  else
    let m := accumulate_and_step raw_elapsed m in
    let r := trim (runner m) in
    (alpha r, with_runner r m).

Definition push_time (elapsed : nanoseconds) (m : Machine)
  : double * Machine :=
  advance elapsed m.

Definition tick_with_clock (tick_timepoint : Z) (m : Machine)
  : double * Machine :=
  let r := runner m in
  if m_paused r then
    let r := with_last tick_timepoint
               (with_last_steps 0%N (with_last_delta 0 r)) in
    (alpha r, with_runner r m)
  else
    let r := if m_last r =? 0 then with_last tick_timepoint r else r in
    let raw := Int64.sub tick_timepoint (m_last r) in
    let r := with_last tick_timepoint r in
    advance raw (with_runner r m).

(** [tick()]; [now] is what [steady_clock::now()] returns. *)
Definition tick (now : Z) (m : Machine) : double * Machine :=
  tick_with_clock now m.

End Runner.

Arguments FixedTimestepRunner W : clear implicits.
Arguments Machine W : clear implicits.
Arguments OnStepFunction W : clear implicits.
Arguments OnErrorFunction W : clear implicits.

(** ** Auxiliary definitions for the statements *)

(** The step loop seen on the numbers alone: the step count and the
    accumulator, without the calls into user code. *)
Fixpoint drain (fuel : nat) (c : Config.t) (steps : size_t)
  (acc : nanoseconds) : size_t * nanoseconds :=
  match fuel with
  | O => (steps, acc)
  | S fuel' =>
      if (Config.step c <=? acc)
         && (steps <? Config.safety_max_substeps c)%N
      then drain fuel' c (steps + 1)%N (Int64.sub acc (Config.step c))
      else (steps, acc)
  end.

(** The configurations of the data model: a positive step, a positive clamp
    and a finite, non-negative time scale. *)
Definition wf_config (c : Config.t) : Prop :=
  0 < Config.step c /\
  0 < Config.safety_max_delta c /\
  Double.nonneg_finite (Config.time_scale c).

(** The time scaling of [dt] stays within what the conversion back to a tick
    count is defined on. *)
Definition scale_fits (c : Config.t) (dt : nanoseconds) : bool :=
  Double.eqb (Config.time_scale c) Double.one
  || Double.fits_int64 (Double.mul (Double.of_Z dt) (Config.time_scale c)).

(** What [advance] adds to the accumulator: the elapsed time, clamped, then
    scaled and truncated to nanoseconds. *)
Definition scaled_elapsed (c : Config.t) (raw_elapsed : nanoseconds)
  : nanoseconds :=
  scale_delta c (clamp_delta c raw_elapsed).

Section Observations.

Context {W : Type}.

(** The calls into user code made between [m] and a later [m']. *)
Definition calls_since (m m' : Machine W) : list call :=
  skipn (length (calls m)) (calls m').

(** [r'] differs from [r] at most in the accumulator and the error flag,
    the two members that the step loop assigns. *)
Definition same_setup (r r' : FixedTimestepRunner W) : Prop :=
  m_on_update_function r' = m_on_update_function r /\
  m_config r' = m_config r /\
  m_last r' = m_last r /\
  m_paused r' = m_paused r /\
  m_on_error_function r' = m_on_error_function r /\
  m_last_delta r' = m_last_delta r /\
  m_last_steps r' = m_last_steps r.

(** [l] is a call log of [n] iterations of the step loop of [r]: one call
    of the step function per iteration when there is one, always with the
    configured step, and one call of the error function per throwing call
    when there is one. *)
Definition log_of_steps (r : FixedTimestepRunner W) (n : nat)
  (l : list call) : Prop :=
  count is_step_call l = (if has_step_function r then n else O) /\
  count is_error_call l =
    (if has_error_function r then count is_throwing_call l else O) /\
  Forall (fun c => match c with
                   | StepCall dt _ => dt = Config.step (m_config r)
                   | ErrorCall => True
                   end) l.

(** No signed overflow and no undefined conversion in a call of [advance]
    with [raw_elapsed]: the scaling converts, the sum with the accumulator
    is an [int64_t], and so is the ceiling of the trim. *)
Definition advance_in_range (raw_elapsed : nanoseconds)
  (r : FixedTimestepRunner W) : Prop :=
  let c := m_config r in
  scale_fits c (clamp_delta c raw_elapsed) = true /\
  Int64.in_range (m_accumulator r + scaled_elapsed c raw_elapsed) /\
  Int64.in_range
    (Config.step c * Z.of_N (Config.safety_max_accumulator_overflow c)).

(** The accumulator that the step loop of [advance] leaves, before the
    trim. *)
Definition leftover (raw_elapsed : nanoseconds) (m : Machine W)
  : nanoseconds :=
  m_accumulator (runner (accumulate_and_step raw_elapsed m)).

(** The exact quotient that [alpha()] computes in double. *)
Definition alpha_exact (r : FixedTimestepRunner W) : Q :=
  m_accumulator r # Z.to_pos (Config.step (m_config r)).

(** [m] with another [m_last_delta]. *)
Definition with_delta (d : nanoseconds) (m : Machine W) : Machine W :=
  with_runner (with_last_delta d (runner m)) m.

(** The public operations of the runner. *)
Inductive operation : Type :=
| Reset (start_now : bool) (now : Z)
| Tick (now : Z)
| PushTime (elapsed : nanoseconds)
| SetHz (hz : double)
| SetStep (s : nanoseconds)
| SetMaxDelta (d : nanoseconds)
| SetMaxSubsteps (n : size_t)
| SetTimeScale (s : double)
| Pause (p : bool)
| Resume
| TogglePause
| SetStepFunction (fn : option (OnStepFunction W))
| SetErrorFunction (fn : option (OnErrorFunction W)).

Definition on_runner (f : FixedTimestepRunner W -> FixedTimestepRunner W)
  (m : Machine W) : Machine W :=
  with_runner (f (runner m)) m.

Definition perform (o : operation) (m : Machine W) : Machine W :=
  match o with
  | Reset start_now now => on_runner (reset start_now now) m
  | Tick now => snd (tick now m)
  | PushTime elapsed => snd (push_time elapsed m)
  | SetHz hz => on_runner (set_hz hz) m
  | SetStep s => on_runner (set_step s) m
  | SetMaxDelta d => on_runner (set_max_delta d) m
  | SetMaxSubsteps n => on_runner (set_max_substeps n) m
  | SetTimeScale s => on_runner (set_time_scale s) m
  | Pause p => on_runner (pause p) m
  | Resume => on_runner resume m
  | TogglePause => on_runner toggle_pause m
  | SetStepFunction fn => on_runner (set_step_function fn) m
  | SetErrorFunction fn => on_runner (set_error_function fn) m
  end.

(** The elapsed time that [tick] hands to [advance]. *)
Definition tick_elapsed (now : Z) (r : FixedTimestepRunner W)
  : nanoseconds :=
  Int64.sub now (if m_last r =? 0 then now else m_last r).

(** The elapsed time an operation feeds to [advance], if it feeds any. *)
Definition fed_elapsed (o : operation) (r : FixedTimestepRunner W)
  : option nanoseconds :=
  if m_paused r then None
  else match o with
       | Tick now => Some (tick_elapsed now r)
       | PushTime elapsed => Some elapsed
       | _ => None
       end.

End Observations.

(** ** Scenarios *)

Definition ms (n : Z) : nanoseconds := n * 1000000.

(** A world that counts the calls of the step function. *)
Definition counter : Type := nat.

(** A step function that throws on its first call only. *)
Definition throws_first : OnStepFunction counter :=
  fun _ n => (S n, match n with O => Threw | S _ => Returned end).

(** A step function that always returns. *)
Definition always_returns : OnStepFunction counter :=
  fun _ n => (S n, Returned).

Definition fresh (fn : option (OnStepFunction counter)) (c : Config.t)
  : Machine counter :=
  mkMachine (make_runner fn c 0) O [].

Definition config_100ms (max_delta : nanoseconds) (max_substeps : size_t)
  : Config.t :=
  Config.mk (ms 100) Double.one max_delta max_substeps
            k_default_max_accumulator_overflow.

(** An error function that leaves its mark in the counter. *)
Definition marks_error : OnErrorFunction counter := fun n => (n + 100)%nat.

(** A runner with a step of 100 ms and both callbacks, whose step function
    throws on its first call. *)
Definition throwing_machine : Machine counter :=
  on_runner (set_error_function (Some marks_error))
    (fresh (Some throws_first) (config_100ms (ms 250) 8%N)).

(** A runner paused with 50 ms in its accumulator. *)
Definition paused_machine : Machine counter :=
  on_runner (pause true)
    (snd (push_time (ms 50)
            (fresh (Some always_returns) (config_100ms (ms 250) 8%N)))).

(** The runner of [throwing_machine] after a call in which the step function
    threw, then paused. *)
Definition stale_machine : Machine counter :=
  on_runner (pause true) (snd (push_time (ms 200) throwing_machine)).

(** A runner with the default configuration and no callbacks. *)
Definition default_machine : Machine counter := fresh None Config.default.

(** A runner whose step was shortened from 100 ms to 10 ms while it held
    50 ms, and which was then paused. *)
Definition shortened_machine : Machine counter :=
  on_runner (pause true)
    (on_runner (set_step (ms 10))
       (snd (push_time (ms 50) (fresh None (config_100ms (ms 250) 8%N))))).

(** A runner with a step of 100 ms, at most two steps per call and a clamp
    of ten seconds. *)
Definition capped_machine : Machine counter :=
  fresh (Some always_returns) (config_100ms (ms 10000) 2%N).

(** A runner whose step is longer than a double can tell from its
    neighbours: [2 ^ 54 + 2] ns. *)
Definition coarse_machine : Machine counter :=
  fresh None
    (Config.mk (2 ^ 54 + 2) Double.one (2 ^ 62) 8%N
       k_default_max_accumulator_overflow).

(** The double 0.5. *)
Definition half : double := Double.div Double.one (Double.of_Z 2).

(** A runner with a step of 100 ms that runs in half time. *)
Definition half_time_machine : Machine counter :=
  fresh (Some always_returns)
    (Config.mk (ms 100) half (ms 1000) k_default_max_substeps
       k_default_max_accumulator_overflow).

(** ** Sequences of operations and shapes of call logs *)

Section Sequences.

Context {W : Type}.

(** The operations of a list, performed one after the other. *)
Definition perform_all (ops : list operation) (m : Machine W) : Machine W :=
  fold_left (fun m o => perform o m) ops m.

(** The operations that feed time: [tick] and [push_time]. *)
Definition feeds_time (o : @operation W) : bool :=
  match o with
  | Tick _ | PushTime _ => true
  | _ => false
  end.

(** The step function called [n] times in a row with [dt], every call
    returning. *)
Definition apply_steps (fn : OnStepFunction W) (dt : nanoseconds) (n : nat)
  (w : W) : W :=
  Nat.iter n (fun w => fst (fn dt w)) w.

(** Two machines on which the step loop makes the same calls, with the same
    effect on the world: they agree on the callbacks, the step, the world
    and the call log. *)
Definition same_user_side (m m' : Machine W) : Prop :=
  m_on_update_function (runner m') = m_on_update_function (runner m) /\
  m_on_error_function (runner m') = m_on_error_function (runner m) /\
  Config.step (m_config (runner m')) = Config.step (m_config (runner m)) /\
  world m' = world m /\
  calls m' = calls m.

(** The operations that keep a well-formed configuration well formed.
    [set_hz] stores the converted period without the check of [set_step],
    and [set_time_scale] lets a NaN and the positive infinity through. *)
Definition keeps_well_formed (o : @operation W) : Prop :=
  match o with
  | SetHz hz =>
      Double.leb hz Double.zero = true \/
      0 < seconds_to_nanoseconds (Double.div Double.one hz)
  | SetTimeScale s => s <> S754_nan /\ s <> S754_infinity false
  | _ => True
  end.

End Sequences.

(** A call log in which the error function is called right after every
    throwing call of the step function (when there is an error function) and
    nowhere else. *)
Fixpoint paired (has_error : bool) (l : list call) : bool :=
  match l with
  | [] => true
  | StepCall _ Returned :: l' => paired has_error l'
  | StepCall _ Threw :: l' =>
      if has_error
      then match l' with
           | ErrorCall :: l'' => paired has_error l''
           | _ => false
           end
      else paired has_error l'
  | ErrorCall :: _ => false
  end.

(** ** Exceptions and [noexcept]

    [advance], [tick_with_clock], [push_time] and [tick] are declared
    [noexcept], and the step loop calls the step function inside
    [try { } catch (...) { }].  The definitions of the runner above follow a
    call to its return.  The definitions of this module follow the exceptions
    as well: a call into user code returns or throws, the [catch (...)] stops
    whatever the [try] block throws, an exception thrown inside the handler
    leaves the loop and the function body, and an exception that reaches the
    boundary of a [noexcept] function ends the program through
    [std::terminate].  Here the error function may throw, too. *)

(** How a call of a [noexcept] member function ends: it returns a value, or
    [std::terminate] is called. *)
Inductive ending (A : Type) : Type :=
| Returns (a : A)
| Terminates.

Arguments Returns {A} a.
Arguments Terminates {A}.

Module Noexcept.

Section Endings.

Context {W : Type}.

(** How a call of the error function ends, by the world it is called in.
    What the call does to the world is [m_on_error_function], as before. *)
Variable error_outcome : W -> outcome.

(** The [try] block of the step loop:
    [if (m_on_update_function) m_on_update_function(m_config.step);] *)
Definition try_block (m : Machine W) : Machine W * outcome :=
  let r := runner m in
  match m_on_update_function r with
  | None => (m, Returned)
  | Some fn =>
      let dt := Config.step (m_config r) in
      let '(w, o) := fn dt (world m) in
      (mkMachine r w (calls m ++ [StepCall dt o]), o)
  end.

(** The [catch (...)] block: the flag is set, then the error function is
    called if there is one.  Nothing catches what the error function
    throws. *)
Definition catch_block (m : Machine W) : Machine W * outcome :=
  let r := with_step_error_caught true (runner m) in
  match m_on_error_function r with
  | None => (with_runner r m, Returned)
  | Some on_error =>
      (mkMachine r (on_error (world m)) (calls m ++ [ErrorCall]),
       error_outcome (world m))
  end.

(** The [try]/[catch] statement. *)
Definition call_step (m : Machine W) : Machine W * outcome :=
  match try_block m with
  | (m, Returned) => (m, Returned)
  | (m, Threw) => catch_block m
  end.

(** The [while] loop; an exception that leaves the [try]/[catch] statement
    leaves the loop before the subtraction. *)
Fixpoint step_loop (fuel : nat) (steps : size_t) (m : Machine W)
  : size_t * Machine W * outcome :=
  match fuel with
  | O => (steps, m, Returned)
  | S fuel' =>
      if step_due steps (runner m)
      then match call_step m with
           | (m, Returned) =>
               let r := runner m in
               step_loop fuel' (steps + 1)%N
                 (with_runner
                    (with_accumulator
                       (Int64.sub (m_accumulator r) (Config.step (m_config r)))
                       r) m)
           | (m, Threw) => (steps, m, Threw)
           end
      else (steps, m, Returned)
  end.

(** [advance(raw_elapsed) noexcept]. *)
Definition advance (raw_elapsed : nanoseconds) (m : Machine W)
  : ending (double * Machine W) :=
  let r := runner m in
  if m_paused r then
    let r := with_last_steps 0%N (with_last_delta 0 r) in
    Returns (alpha r, with_runner r m)
  else
    let r := with_step_error_caught false r in
    let r := with_last_delta raw_elapsed r in
    let dt := clamp_delta (m_config r) raw_elapsed in
    let dt := scale_delta (m_config r) dt in
    let r := with_accumulator (Int64.add (m_accumulator r) dt) r in
    match step_loop (N.to_nat (Config.safety_max_substeps (m_config r))) 0%N
                    (with_runner r m) with
    | (steps, m, Returned) =>
        let r := trim (with_last_steps steps (runner m)) in
        Returns (alpha r, with_runner r m)
    | (_, _, Threw) => Terminates
    end.

(** [push_time(elapsed) noexcept]. *)
Definition push_time (elapsed : nanoseconds) (m : Machine W)
  : ending (double * Machine W) :=
  advance elapsed m.

(** [tick_with_clock(tick_timepoint) noexcept]. *)
Definition tick_with_clock (tick_timepoint : Z) (m : Machine W)
  : ending (double * Machine W) :=
  let r := runner m in
  if m_paused r then
    let r := with_last tick_timepoint
               (with_last_steps 0%N (with_last_delta 0 r)) in
    Returns (alpha r, with_runner r m)
  else
    let r := if m_last r =? 0 then with_last tick_timepoint r else r in
    let raw := Int64.sub tick_timepoint (m_last r) in
    let r := with_last tick_timepoint r in
    advance raw (with_runner r m).

(** [tick() noexcept]; [now] is what [steady_clock::now()] returns. *)
Definition tick (now : Z) (m : Machine W) : ending (double * Machine W) :=
  tick_with_clock now m.

End Endings.

End Noexcept.


(** An error function that throws in every world. *)
Definition error_function_throws : counter -> outcome := fun _ => Threw.


(** * Properties *)

(** ** 64-bit arithmetic *)

Lemma wrap64_in_range (z : Z) : Int64.in_range (Int64.wrap64 z).
Proof.
  unfold Int64.in_range, Int64.wrap64, Int64.min_signed, Int64.max_signed.
  pose proof (Z.mod_pos_bound (z + 2 ^ 63) (2 ^ 64) ltac:(lia)). lia.
Qed.

Lemma wrap64_id (z : Z) : Int64.in_range z -> Int64.wrap64 z = z.
Proof.
  unfold Int64.in_range, Int64.wrap64, Int64.min_signed, Int64.max_signed.
  intros Hz. rewrite Z.mod_small by lia. lia.
Qed.

(** ** The loop on numbers *)

Lemma drain_steps_mono fuel c : forall steps acc,
  (steps <= fst (drain fuel c steps acc))%N.
Proof.
  induction fuel as [|fuel IH]; intros steps acc; cbn [drain].
  - cbn. lia.
  - destruct (_ && _); cbn [fst]; [|lia].
    specialize (IH (steps + 1)%N (Int64.sub acc (Config.step c))). lia.
Qed.

(** The step count never passes the cap. *)
Lemma drain_steps_capped fuel c : forall steps acc,
  (steps <= Config.safety_max_substeps c)%N ->
  (fst (drain fuel c steps acc) <= Config.safety_max_substeps c)%N.
Proof.
  induction fuel as [|fuel IH]; intros steps acc Hle; cbn [drain].
  - exact Hle.
  - destruct (andb _ _) eqn:Hdue; cbn [fst]; [|exact Hle].
    apply andb_prop in Hdue as [_ Hlt%N.ltb_lt]. apply IH. lia.
Qed.

(** With the fuel that [advance] gives, the loop stops because its condition
    is false, not because the fuel ran out. *)
Lemma drain_exit fuel c : forall steps acc,
  (N.to_nat (Config.safety_max_substeps c - steps) <= fuel)%nat ->
  let '(steps', acc') := drain fuel c steps acc in
  (Config.step c <=? acc') && (steps' <? Config.safety_max_substeps c)%N
  = false.
Proof.
  induction fuel as [|fuel IH]; intros steps acc Hfuel; cbn [drain].
  - apply andb_false_iff. right. apply N.ltb_ge. lia.
  - destruct (andb _ _) eqn:Hdue; [|exact Hdue].
    apply IH. apply andb_prop in Hdue as [_ Hlt%N.ltb_lt]. lia.
Qed.

(** More fuel than the cap allows to use changes nothing. *)
Lemma drain_fuel_enough fuel c : forall steps acc extra,
  (N.to_nat (Config.safety_max_substeps c - steps) <= fuel)%nat ->
  drain (fuel + extra) c steps acc = drain fuel c steps acc.
Proof.
  induction fuel as [|fuel IH]; intros steps acc extra Hfuel.
  - destruct extra as [|extra]; [reflexivity|]. cbn [Nat.add drain].
    replace (steps <? Config.safety_max_substeps c)%N with false
      by (symmetry; apply N.ltb_ge; lia).
    now rewrite andb_false_r.
  - cbn [Nat.add drain]. destruct (andb _ _) eqn:Hdue; [|reflexivity].
    apply IH. apply andb_prop in Hdue as [_ Hlt%N.ltb_lt]. lia.
Qed.

(** With a positive step the subtractions of the loop never wrap: the
    accumulator goes down by one step per iteration and stays non-negative
    once an iteration ran. *)
Lemma drain_accumulator fuel c : forall steps acc,
  0 < Config.step c -> acc <= Int64.max_signed ->
  let '(steps', acc') := drain fuel c steps acc in
  acc' = acc - Z.of_N (steps' - steps) * Config.step c /\
  (0 <= acc -> 0 <= acc') /\ acc' <= acc.
Proof.
  induction fuel as [|fuel IH]; intros steps acc Hstep Hacc; cbn [drain].
  - rewrite N.sub_diag. cbn. lia.
  - destruct (andb _ _) eqn:Hdue.
    + apply andb_prop in Hdue as [Hge%Z.leb_le _].
      assert (Hsub : Int64.sub acc (Config.step c) = acc - Config.step c).
      { apply wrap64_id. unfold Int64.in_range, Int64.min_signed,
          Int64.max_signed in *. lia. }
      rewrite Hsub.
      specialize (IH (steps + 1)%N (acc - Config.step c) Hstep ltac:(lia)).
      pose proof (drain_steps_mono fuel c (steps + 1)%N (acc - Config.step c))
        as Hmono.
      destruct (drain fuel c (steps + 1)%N (acc - Config.step c))
        as [steps' acc'].
      cbn [fst] in Hmono. destruct IH as (Heq & Hnn & Hle).
      repeat split; [|lia|lia].
      rewrite Heq.
      replace (Z.of_N (steps' - steps))
        with (Z.of_N (steps' - (steps + 1)) + 1) by lia.
      lia.
    + rewrite N.sub_diag. cbn. lia.
Qed.

(** ** Call logs *)

Lemma count_app (p : call -> bool) (l1 l2 : list call) :
  count p (l1 ++ l2) = (count p l1 + count p l2)%nat.
Proof. unfold count. now rewrite filter_app, length_app. Qed.

Lemma skipn_length_app {A : Type} (l1 l2 : list A) :
  skipn (length l1) (l1 ++ l2) = l2.
Proof. induction l1 as [|a l1 IH]; [reflexivity|exact IH]. Qed.

Section LoopFacts.

Context {W : Type}.
Implicit Types (m : Machine W) (r : FixedTimestepRunner W).

Lemma same_setup_refl r : same_setup r r.
Proof. repeat split. Qed.

Lemma same_setup_trans r1 r2 r3 :
  same_setup r1 r2 -> same_setup r2 r3 -> same_setup r1 r3.
Proof.
  unfold same_setup. intros H12 H23.
  decompose [and] H12. decompose [and] H23. repeat split; congruence.
Qed.

Lemma calls_since_app m m' l :
  calls m' = calls m ++ l -> calls_since m m' = l.
Proof. unfold calls_since. intros ->. apply skipn_length_app. Qed.

(** One pass through the [try]/[catch]. *)
Lemma call_step_spec m :
  exists l,
    calls (call_step m) = calls m ++ l /\
    log_of_steps (runner m) 1 l /\
    m_step_error_caught (runner (call_step m))
    = m_step_error_caught (runner m) || existsb is_throwing_call l /\
    m_accumulator (runner (call_step m)) = m_accumulator (runner m) /\
    same_setup (runner m) (runner (call_step m)).
Proof.
  unfold call_step, log_of_steps, has_step_function, has_error_function.
  destruct (m_on_update_function (runner m)) as [fn|] eqn:Hfn.
  - destruct (fn _ _) as [w [|]].
    + exists [StepCall (Config.step (m_config (runner m))) Returned].
      cbn. rewrite orb_false_r.
      repeat split; auto. destruct (m_on_error_function _); reflexivity.
    + destruct (m_on_error_function _) as [on_error|] eqn:Herr; cbn.
      * exists [StepCall (Config.step (m_config (runner m))) Threw;
                ErrorCall].
        cbn. rewrite orb_true_r. repeat split; auto.
      * exists [StepCall (Config.step (m_config (runner m))) Threw].
        cbn. rewrite orb_true_r. repeat split; auto.
  - exists []. rewrite app_nil_r, orb_false_r. cbn.
    repeat split; auto. destruct (m_on_error_function _); reflexivity.
Qed.

Lemma log_of_steps_setup r r' n l :
  same_setup r r' -> log_of_steps r n l -> log_of_steps r' n l.
Proof.
  unfold same_setup, log_of_steps, has_step_function, has_error_function.
  intros (-> & -> & _ & _ & -> & _) H. exact H.
Qed.

Lemma log_of_steps_app r n1 n2 l1 l2 :
  log_of_steps r n1 l1 -> log_of_steps r n2 l2 ->
  log_of_steps r (n1 + n2) (l1 ++ l2).
Proof.
  unfold log_of_steps. intros (Hs1 & He1 & Hd1) (Hs2 & He2 & Hd2).
  rewrite !count_app, Hs1, Hs2, He1, He2.
  repeat split.
  - now destruct (has_step_function r).
  - now destruct (has_error_function r).
  - now apply Forall_app.
Qed.

(** The loop on the machine follows the loop on the numbers, whatever the
    callbacks do, and its log has one entry per iteration. *)
Lemma step_loop_spec fuel : forall steps m,
  let '(steps', m') := step_loop fuel steps m in
  (steps', m_accumulator (runner m'))
  = drain fuel (m_config (runner m)) steps (m_accumulator (runner m)) /\
  same_setup (runner m) (runner m') /\
  exists l,
    calls m' = calls m ++ l /\
    log_of_steps (runner m) (N.to_nat (steps' - steps)) l /\
    m_step_error_caught (runner m')
    = m_step_error_caught (runner m) || existsb is_throwing_call l.
Proof.
  induction fuel as [|fuel IH]; intros steps m; cbn [step_loop drain].
  - split; [reflexivity|]. split; [apply same_setup_refl|].
    exists []. rewrite app_nil_r, orb_false_r, N.sub_diag.
    repeat split; try constructor.
    + unfold count. cbn. now destruct (has_step_function _).
    + unfold count. cbn. now destruct (has_error_function _).
  - unfold step_due. destruct (andb _ _) eqn:Hdue.
    + specialize (IH (steps + 1)%N (step_once m)).
      pose proof (drain_steps_mono fuel (m_config (runner m)) (steps + 1)%N
                    (Int64.sub (m_accumulator (runner m))
                       (Config.step (m_config (runner m))))) as Hmono.
      destruct (step_loop fuel (steps + 1)%N (step_once m))
        as [steps' m'] eqn:Hloop.
      destruct (call_step_spec m) as (l1 & Hl1 & Hlog1 & Hflag1 & Hacc1 & Hset1).
      assert (Hset : same_setup (runner m) (runner (step_once m))).
      { unfold step_once. cbn. revert Hset1. unfold same_setup. cbn. tauto. }
      assert (Hcfg : m_config (runner (step_once m)) = m_config (runner m))
        by apply Hset.
      assert (Hacc : m_accumulator (runner (step_once m))
                     = Int64.sub (m_accumulator (runner m))
                         (Config.step (m_config (runner m)))).
      { unfold step_once. cbn. rewrite Hacc1.
        destruct Hset1 as (_ & -> & _). reflexivity. }
      destruct IH as (Hnum & Hset' & l2 & Hl2 & Hlog2 & Hflag2).
      rewrite Hcfg, Hacc in Hnum. rewrite <- Hnum in Hmono. cbn [fst] in Hmono.
      split; [exact Hnum|].
      split; [eapply same_setup_trans; eassumption|].
      exists (l1 ++ l2). split; [|split].
      * rewrite Hl2. unfold step_once. cbn. rewrite Hl1.
        now rewrite app_assoc.
      * replace (N.to_nat (steps' - steps))
          with (1 + N.to_nat (steps' - (steps + 1)))%nat by lia.
        apply log_of_steps_app; [exact Hlog1|].
        eapply log_of_steps_setup; [|exact Hlog2].
        destruct Hset as (? & ? & ? & ? & ? & ? & ?).
        repeat split; congruence.
      * rewrite Hflag2. unfold step_once. cbn. rewrite Hflag1.
        now rewrite existsb_app, orb_assoc.
    + split; [reflexivity|]. split; [apply same_setup_refl|].
      exists []. rewrite app_nil_r, orb_false_r, N.sub_diag.
      repeat split; try constructor.
      * unfold count. cbn. now destruct (has_step_function _).
      * unfold count. cbn. now destruct (has_error_function _).
Qed.

(** With the fuel that [advance] gives, the loop on the machine ends with its
    condition false: it is the [while] loop of the source, run to its end. *)
Lemma step_loop_exit fuel steps m :
  (N.to_nat (Config.safety_max_substeps (m_config (runner m)) - steps)
   <= fuel)%nat ->
  let '(steps', m') := step_loop fuel steps m in
  step_due steps' (runner m') = false.
Proof.
  intros Hfuel.
  pose proof (step_loop_spec fuel steps m) as Hspec.
  pose proof (drain_exit fuel (m_config (runner m)) steps
                (m_accumulator (runner m)) Hfuel) as Hexit.
  destruct (step_loop fuel steps m) as [steps' m'].
  destruct Hspec as (Hnum & (_ & Hcfg & _) & _).
  rewrite <- Hnum in Hexit. unfold step_due. now rewrite Hcfg.
Qed.

End LoopFacts.

(** ** One call of [advance] *)

Section AdvanceFacts.

Context {W : Type}.
Implicit Types (m : Machine W) (r : FixedTimestepRunner W).

(** What the part of [advance] before the trim computes. *)
Lemma accumulate_and_step_spec raw_elapsed m :
  let r := runner m in
  let c := m_config r in
  let r' := runner (accumulate_and_step raw_elapsed m) in
  (m_last_steps r', m_accumulator r')
  = drain (N.to_nat (Config.safety_max_substeps c)) c 0%N
      (Int64.add (m_accumulator r) (scaled_elapsed c raw_elapsed)) /\
  (m_on_update_function r' = m_on_update_function r /\
   m_config r' = c /\
   m_last r' = m_last r /\
   m_paused r' = m_paused r /\
   m_on_error_function r' = m_on_error_function r /\
   m_last_delta r' = raw_elapsed) /\
  exists l,
    calls (accumulate_and_step raw_elapsed m) = calls m ++ l /\
    log_of_steps r (N.to_nat (m_last_steps r')) l /\
    m_step_error_caught r' = existsb is_throwing_call l.
Proof.
  cbv zeta. unfold accumulate_and_step. cbn [m_config with_accumulator
    with_last_delta with_step_error_caught m_accumulator].
  set (r0 := with_accumulator _ _).
  pose proof (step_loop_spec
    (N.to_nat (Config.safety_max_substeps (m_config (runner m)))) 0%N
    (with_runner r0 m)) as Hloop.
  destruct (step_loop _ 0%N (with_runner r0 m)) as [steps m'].
  destruct Hloop as (Hnum & Hset & l & Hl & Hlog & Hflag).
  cbn in Hnum, Hset, Hl, Hflag. cbn.
  split; [exact Hnum|].
  destruct Hset as (Hfn & Hcfg & Hlast & Hpaused & Herr & Hdelta & _).
  split; [repeat split; assumption|].
  exists l. rewrite N.sub_0_r in Hlog.
  repeat split; try assumption; apply Hlog.
Qed.

Lemma advance_paused raw_elapsed m :
  m_paused (runner m) = true ->
  snd (advance raw_elapsed m)
  = with_runner (with_last_steps 0%N (with_last_delta 0 (runner m))) m.
Proof. unfold advance. now intros ->. Qed.

Lemma advance_running raw_elapsed m :
  m_paused (runner m) = false ->
  snd (advance raw_elapsed m)
  = with_runner (trim (runner (accumulate_and_step raw_elapsed m)))
      (accumulate_and_step raw_elapsed m).
Proof. unfold advance. now intros ->. Qed.

(** [advance] returns the [alpha()] of the state it leaves. *)
Lemma advance_returns_alpha raw_elapsed m :
  fst (advance raw_elapsed m) = alpha (runner (snd (advance raw_elapsed m))).
Proof. unfold advance. now destruct (m_paused (runner m)). Qed.

Lemma trim_accumulator r :
  m_accumulator (trim r) = Z.min (m_accumulator r) (max_acc (m_config r)).
Proof.
  unfold trim. destruct (Z.ltb_spec (max_acc (m_config r)) (m_accumulator r));
    cbn; lia.
Qed.

Lemma trim_frame r :
  m_last_steps (trim r) = m_last_steps r /\
  m_step_error_caught (trim r) = m_step_error_caught r /\
  m_config (trim r) = m_config r /\
  m_paused (trim r) = m_paused r /\
  m_last_delta (trim r) = m_last_delta r.
Proof. unfold trim. destruct (_ <? _); repeat split. Qed.

(** [tick] is [advance] on the elapsed clock time, with the clock reference
    moved. *)
Lemma tick_running now m :
  m_paused (runner m) = false ->
  tick now m
  = advance (tick_elapsed now (runner m))
      (with_runner (with_last now (runner m)) m).
Proof.
  unfold tick, tick_with_clock, tick_elapsed. intros ->.
  destruct (m_last (runner m) =? 0); reflexivity.
Qed.

Lemma tick_paused now m :
  m_paused (runner m) = true ->
  snd (tick now m)
  = with_runner
      (with_last now (with_last_steps 0%N (with_last_delta 0 (runner m)))) m.
Proof. unfold tick, tick_with_clock. now intros ->. Qed.

End AdvanceFacts.

Section CallFacts.

Context {W : Type}.
Implicit Types (m : Machine W) (r : FixedTimestepRunner W).

(** The step count and the call log of one call of [advance], paused or
    not. *)
Lemma advance_log raw_elapsed m :
  let m' := snd (advance raw_elapsed m) in
  (m_last_steps (runner m')
   <= Config.safety_max_substeps (m_config (runner m)))%N /\
  exists l,
    calls m' = calls m ++ l /\
    log_of_steps (runner m) (N.to_nat (m_last_steps (runner m'))) l.
Proof.
  cbv zeta. destruct (m_paused (runner m)) eqn:Hp.
  - rewrite advance_paused by exact Hp. cbn. split; [lia|].
    exists []. rewrite app_nil_r. split; [reflexivity|].
    unfold log_of_steps, count. cbn.
    repeat split; try constructor.
    + now destruct (has_step_function _).
    + now destruct (has_error_function _).
  - rewrite advance_running by exact Hp. cbn.
    destruct (accumulate_and_step_spec raw_elapsed m)
      as (Hnum & _ & l & Hl & Hlog & _).
    destruct (trim_frame (runner (accumulate_and_step raw_elapsed m)))
      as (-> & _).
    split.
    + pose proof (drain_steps_capped
        (N.to_nat (Config.safety_max_substeps (m_config (runner m))))
        (m_config (runner m)) 0%N
        (Int64.add (m_accumulator (runner m))
           (scaled_elapsed (m_config (runner m)) raw_elapsed))
        ltac:(lia)) as Hcap.
      rewrite <- Hnum in Hcap. exact Hcap.
    + exists l. split; assumption.
Qed.

Lemma log_of_steps_count r n l :
  log_of_steps r n l -> (count is_step_call l <= n)%nat.
Proof.
  intros (-> & _). destruct (has_step_function r); lia.
Qed.

End CallFacts.

(** ** The substep cap *)

(** C2: whatever the elapsed time, one call of [advance] (through
    [push_time] or through [tick]) records at most [safety_max_substeps]
    steps in [last_steps], and calls the step function at most that many
    times. *)
Theorem steps_never_exceed_max_substeps {W : Type} (m : Machine W)
  (elapsed : nanoseconds) (now : Z) :
  let pushed := snd (push_time elapsed m) in
  let ticked := snd (tick now m) in
  (last_steps (runner pushed) <= max_substeps (runner m))%N /\
  (count is_step_call (calls_since m pushed)
   <= N.to_nat (max_substeps (runner m)))%nat /\
  (last_steps (runner ticked) <= max_substeps (runner m))%N /\
  (count is_step_call (calls_since m ticked)
   <= N.to_nat (max_substeps (runner m)))%nat.
Proof.
  cbv zeta. unfold push_time, last_steps, max_substeps.
  assert (Hadv : forall raw (m0 : Machine W),
    (m_last_steps (runner (snd (advance raw m0)))
     <= Config.safety_max_substeps (m_config (runner m0)))%N /\
    (count is_step_call (calls_since m0 (snd (advance raw m0)))
     <= N.to_nat (Config.safety_max_substeps (m_config (runner m0))))%nat).
  { intros raw m0. destruct (advance_log raw m0) as (Hcap & l & Hl & Hlog).
    split; [exact Hcap|].
    rewrite (calls_since_app _ _ _ Hl).
    apply log_of_steps_count in Hlog. lia. }
  split; [apply Hadv|]. split; [apply Hadv|].
  destruct (m_paused (runner m)) eqn:Hp.
  - rewrite tick_paused by exact Hp. cbn. split; [lia|].
    unfold calls_since. cbn. rewrite skipn_all. cbn. lia.
  - rewrite tick_running by exact Hp.
    specialize (Hadv (tick_elapsed now (runner m))
                  (with_runner (with_last now (runner m)) m)).
    exact Hadv.
Qed.

(** ** Pause *)

(** C8: while the runner is paused, [push_time] and [tick] leave the
    accumulator and [alpha()] as they were, return that same alpha, call
    nothing, leave the world alone, record zero steps, and leave the runner
    paused, so that the same holds for every later call. *)
Theorem paused_calls_change_nothing {W : Type} (m : Machine W)
  (elapsed : nanoseconds) (now : Z) :
  paused (runner m) = true ->
  let pushed := push_time elapsed m in
  let ticked := tick now m in
  (accumulator (runner (snd pushed)) = accumulator (runner m) /\
   alpha (runner (snd pushed)) = alpha (runner m) /\
   fst pushed = alpha (runner m) /\
   calls (snd pushed) = calls m /\
   world (snd pushed) = world m /\
   last_steps (runner (snd pushed)) = 0%N /\
   paused (runner (snd pushed)) = true) /\
  (accumulator (runner (snd ticked)) = accumulator (runner m) /\
   alpha (runner (snd ticked)) = alpha (runner m) /\
   fst ticked = alpha (runner m) /\
   calls (snd ticked) = calls m /\
   world (snd ticked) = world m /\
   last_steps (runner (snd ticked)) = 0%N /\
   paused (runner (snd ticked)) = true).
Proof.
  unfold paused, push_time, tick, tick_with_clock, advance.
  intros Hp. cbv zeta. rewrite Hp. cbn. rewrite Hp. repeat split.
Qed.

Lemma paused_calls_change_nothing_witness :
  paused (runner paused_machine) = true /\
  (accumulator (runner (snd (push_time (ms 70) paused_machine))) = ms 50 /\
   last_steps (runner (snd (push_time (ms 70) paused_machine))) = 0%N /\
   calls (snd (push_time (ms 70) paused_machine)) = calls paused_machine /\
   accumulator (runner (snd (tick 12345 paused_machine))) = ms 50).
Proof.
  split; [reflexivity|].
  pose proof (paused_calls_change_nothing paused_machine (ms 70) 12345
                eq_refl) as [Hpush Htick].
  cbv zeta in Hpush, Htick.
  destruct Hpush as (Hacc & _ & _ & Hcalls & _ & Hsteps & _).
  destruct Htick as (Hacc' & _).
  split; [rewrite Hacc; reflexivity|].
  split; [exact Hsteps|].
  split; [exact Hcalls|].
  rewrite Hacc'. reflexivity.
Defined.

(** ** Clamp *)

Section ClampFacts.

Context {W : Type}.
Implicit Types (m : Machine W) (r : FixedTimestepRunner W).

Lemma step_once_with_delta d m :
  step_once (with_delta d m) = with_delta d (step_once m).
Proof.
  unfold step_once, call_step, with_delta. cbn.
  destruct (m_on_update_function (runner m)) as [fn|]; [|reflexivity].
  destruct (fn _ _) as [w [|]]; [reflexivity|].
  cbn. destruct (m_on_error_function (runner m)); reflexivity.
Qed.

(** The step loop neither reads nor writes [m_last_delta]. *)
Lemma step_loop_with_delta d fuel : forall steps m,
  step_loop fuel steps (with_delta d m)
  = (fst (step_loop fuel steps m),
     with_delta d (snd (step_loop fuel steps m))).
Proof.
  induction fuel as [|fuel IH]; intros steps m; cbn [step_loop].
  - reflexivity.
  - change (step_due steps (runner (with_delta d m)))
      with (step_due steps (runner m)).
    destruct (step_due steps (runner m)); [|reflexivity].
    rewrite step_once_with_delta. apply IH.
Qed.

(** Two elapsed times with the same clamped value lead to the same state,
    up to the recorded raw delta. *)
Lemma accumulate_and_step_clamp raw1 raw2 m :
  clamp_delta (m_config (runner m)) raw1
  = clamp_delta (m_config (runner m)) raw2 ->
  accumulate_and_step raw1 m = with_delta raw1 (accumulate_and_step raw2 m).
Proof.
  intros Hclamp. unfold accumulate_and_step. cbn [m_config with_last_delta
    with_step_error_caught m_accumulator]. rewrite Hclamp.
  set (a := Int64.add _ _).
  set (r0 := with_accumulator a (with_step_error_caught false (runner m))).
  change (with_runner
            (with_accumulator a
               (with_last_delta raw1
                  (with_step_error_caught false (runner m)))) m)
    with (with_delta raw1 (with_runner r0 m)).
  change (with_runner
            (with_accumulator a
               (with_last_delta raw2
                  (with_step_error_caught false (runner m)))) m)
    with (with_delta raw2 (with_runner r0 m)).
  rewrite !step_loop_with_delta.
  destruct (step_loop _ 0%N (with_runner r0 m)) as [steps m']. reflexivity.
Qed.

Lemma clamp_delta_above (c : Config.t) (raw_elapsed : nanoseconds) :
  Config.safety_max_delta c < raw_elapsed ->
  clamp_delta c raw_elapsed = clamp_delta c (Config.safety_max_delta c).
Proof.
  unfold clamp_delta. intros Hlt.
  rewrite (proj2 (Z.ltb_lt _ _) Hlt), Z.ltb_irrefl. reflexivity.
Qed.

End ClampFacts.

(** C9: from any state, [push_time] with an elapsed time above
    [safety_max_delta] takes the same number of steps and leaves the same
    accumulator as [push_time] with exactly [safety_max_delta]; it also
    returns the same alpha, makes the same calls and leaves the same world
    and error flag. *)
Theorem clamp_idempotence {W : Type} (m : Machine W) (elapsed : nanoseconds) :
  max_delta (runner m) < elapsed ->
  let above := push_time elapsed m in
  let exact := push_time (max_delta (runner m)) m in
  last_steps (runner (snd above)) = last_steps (runner (snd exact)) /\
  accumulator (runner (snd above)) = accumulator (runner (snd exact)) /\
  fst above = fst exact /\
  calls (snd above) = calls (snd exact) /\
  world (snd above) = world (snd exact) /\
  step_error_caught (runner (snd above))
  = step_error_caught (runner (snd exact)).
Proof.
  unfold max_delta, push_time. intros Hlt. cbv zeta.
  rewrite !advance_returns_alpha.
  destruct (m_paused (runner m)) eqn:Hp.
  - rewrite !advance_paused by exact Hp. repeat split.
  - rewrite !advance_running by exact Hp.
    rewrite (accumulate_and_step_clamp elapsed
               (Config.safety_max_delta (m_config (runner m))) m)
      by (now apply clamp_delta_above).
    set (m' := accumulate_and_step _ m).
    unfold with_delta, trim, alpha, last_steps, accumulator,
      step_error_caught. cbn.
    destruct (_ <? _); repeat split.
Qed.

Lemma clamp_idempotence_witness :
  max_delta (runner throwing_machine) < ms 350 /\
  last_steps (runner (snd (push_time (ms 350) throwing_machine)))
  = last_steps (runner (snd (push_time (ms 250) throwing_machine))) /\
  accumulator (runner (snd (push_time (ms 350) throwing_machine)))
  = accumulator (runner (snd (push_time (ms 250) throwing_machine))).
Proof.
  assert (H : max_delta (runner throwing_machine) < ms 350) by reflexivity.
  split; [exact H|].
  pose proof (clamp_idempotence throwing_machine (ms 350) H) as Hc.
  cbv zeta in Hc. destruct Hc as (Hsteps & Hacc & _).
  split; [exact Hsteps|exact Hacc].
Defined.

(** ** Failures of the step function *)

Section FailureFacts.

Context {W : Type}.
Implicit Types (m : Machine W) (r : FixedTimestepRunner W).

(** The step count and the accumulator that a call on a running runner
    leaves depend on the configuration and the accumulator only. *)
Lemma advance_running_numbers raw_elapsed m :
  m_paused (runner m) = false ->
  let c := m_config (runner m) in
  let r' := runner (snd (advance raw_elapsed m)) in
  let d := drain (N.to_nat (Config.safety_max_substeps c)) c 0%N
             (Int64.add (m_accumulator (runner m))
                (scaled_elapsed c raw_elapsed)) in
  m_last_steps r' = fst d /\
  m_accumulator r' = Z.min (snd d) (max_acc c) /\
  m_config r' = c.
Proof.
  intros Hp. cbv zeta. rewrite advance_running by exact Hp. cbn.
  destruct (accumulate_and_step_spec raw_elapsed m)
    as (Hnum & (_ & Hcfg & _) & _).
  cbv zeta in Hnum, Hcfg.
  rewrite trim_accumulator.
  destruct (trim_frame (runner (accumulate_and_step raw_elapsed m)))
    as (-> & _ & -> & _).
  rewrite Hcfg, <- Hnum. repeat split.
Qed.

(** After a call on a running runner the flag tells whether a call of the
    step function threw during that call. *)
Lemma advance_running_flag raw_elapsed m :
  m_paused (runner m) = false ->
  let m' := snd (advance raw_elapsed m) in
  m_step_error_caught (runner m')
  = existsb is_throwing_call (calls_since m m') /\
  log_of_steps (runner m) (N.to_nat (m_last_steps (runner m')))
    (calls_since m m').
Proof.
  intros Hp. cbv zeta. rewrite advance_running by exact Hp. cbn.
  destruct (accumulate_and_step_spec raw_elapsed m)
    as (_ & _ & l & Hl & Hlog & Hflag).
  cbv zeta in Hl, Hlog, Hflag.
  destruct (trim_frame (runner (accumulate_and_step raw_elapsed m)))
    as (-> & -> & _).
  unfold calls_since. cbn. rewrite Hl, skipn_length_app.
  split; assumption.
Qed.

Lemma reset_frame start_now now r :
  m_step_error_caught (reset start_now now r) = m_step_error_caught r /\
  m_accumulator (reset start_now now r) = 0 /\
  m_last_delta (reset start_now now r) = 0 /\
  m_last_steps (reset start_now now r) = 0%N /\
  m_paused (reset start_now now r) = false /\
  m_config (reset start_now now r) = m_config r.
Proof. unfold reset. destruct start_now; repeat split. Qed.

End FailureFacts.

(** Scenario E: the step function throws on the first of the two steps that
    200 ms at a step of 100 ms make due.  The flag is set, the error function
    ran once, after the throwing call and before the second step, two steps
    were taken and the accumulator went down by two steps. *)
Example step_failure_scenario :
  let m' := snd (push_time (ms 200) throwing_machine) in
  step_error_caught (runner m') = true /\
  calls m' = [StepCall (ms 100) Threw; ErrorCall; StepCall (ms 100) Returned]
  /\ count is_error_call (calls m') = 1%nat
  /\ last_steps (runner m') = 2%N
  /\ accumulator (runner m') = ms 200 - 2 * ms 100
  /\ world m' = 102%nat.
Proof. vm_compute. repeat split. Qed.

(** ** The error flag *)

(** On a running runner the flag answers for the call just made: it is set
    if and only if a call of the step function threw during that call. *)
Lemma step_error_caught_after_running_call {W : Type} (m : Machine W)
  (elapsed : nanoseconds) :
  paused (runner m) = false ->
  let m' := snd (push_time elapsed m) in
  step_error_caught (runner m') = true
  <-> exists dt, In (StepCall dt Threw) (calls_since m m').
Proof.
  unfold paused, push_time, step_error_caught. intros Hp. cbv zeta.
  destruct (advance_running_flag elapsed m Hp) as (-> & _).
  rewrite existsb_exists. split.
  - intros ([dt [|]|] & Hin & Hthrow); try discriminate. now exists dt.
  - intros (dt & Hin). now exists (StepCall dt Threw).
Qed.

(** C6, where the code departs from it: a paused call returns before the
    flag is reset.  After a call in which the step function threw, a call on
    the paused runner calls nothing, and [step_error_caught()] still answers
    [true]; the same holds for [tick]. *)
Theorem step_error_caught_stale_when_paused :
  step_error_caught (runner stale_machine) = true /\
  (let m' := snd (push_time (ms 16) stale_machine) in
   calls_since stale_machine m' = [] /\
   last_steps (runner m') = 0%N /\
   step_error_caught (runner m') = true) /\
  (let m' := snd (tick 1000 stale_machine) in
   calls_since stale_machine m' = [] /\
   step_error_caught (runner m') = true).
Proof. vm_compute. repeat split. Qed.

(** ** Reset *)

(** C10: [reset] leaves the error flag alone.  After a call in which the step
    function threw, [reset], with either argument, reinitialises the
    accumulator, the last delta, the last step count and the pause flag, and
    [step_error_caught()] still answers [true]. *)
Theorem reset_keeps_step_error_caught {W : Type} (m : Machine W)
  (elapsed : nanoseconds) (start_now : bool) (now : Z) :
  paused (runner m) = false ->
  (exists dt, In (StepCall dt Threw)
                (calls_since m (snd (push_time elapsed m)))) ->
  let r := runner (snd (push_time elapsed m)) in
  step_error_caught r = true /\
  step_error_caught (reset start_now now r) = true /\
  accumulator (reset start_now now r) = 0 /\
  last_delta (reset start_now now r) = 0 /\
  last_steps (reset start_now now r) = 0%N /\
  paused (reset start_now now r) = false.
Proof.
  intros Hp Hthrow. cbv zeta.
  apply (step_error_caught_after_running_call m elapsed Hp) in Hthrow.
  unfold step_error_caught, accumulator, last_delta, last_steps, paused in *.
  destruct (reset_frame start_now now (runner (snd (push_time elapsed m))))
    as (Hflag & Hacc & Hdelta & Hsteps & Hpaused & _).
  rewrite Hflag. repeat split; assumption.
Qed.

Lemma reset_keeps_step_error_caught_witness :
  paused (runner throwing_machine) = false /\
  (exists dt, In (StepCall dt Threw)
                (calls_since throwing_machine
                   (snd (push_time (ms 200) throwing_machine)))) /\
  step_error_caught
    (reset true 5 (runner (snd (push_time (ms 200) throwing_machine))))
  = true /\
  step_error_caught
    (reset false 5 (runner (snd (push_time (ms 200) throwing_machine))))
  = true.
Proof.
  assert (Hthrow : exists dt,
    In (StepCall dt Threw)
       (calls_since throwing_machine
          (snd (push_time (ms 200) throwing_machine)))).
  { exists (ms 100). vm_compute. left. reflexivity. }
  split; [reflexivity|]. split; [exact Hthrow|].
  split.
  - exact (proj1 (proj2 (reset_keeps_step_error_caught throwing_machine
                           (ms 200) true 5 eq_refl Hthrow))).
  - exact (proj1 (proj2 (reset_keeps_step_error_caught throwing_machine
                           (ms 200) false 5 eq_refl Hthrow))).
Defined.

(** ** Signs of doubles *)

Lemma binary_round_aux_sign_clear (m e : Z) (l : location) :
  Double.sign_clear (binary_round_aux Double.prec Double.emax false m e l).
Proof.
  unfold binary_round_aux.
  destruct (shr_fexp _ _ m e l) as [mrs' e'].
  destruct (shr_fexp _ _ _ e' loc_Exact) as [mrs'' e''].
  destruct (shr_m mrs''); cbn; auto.
  destruct (_ <=? _); reflexivity.
Qed.

Lemma of_Z_sign_clear (z : Z) : 0 <= z -> Double.sign_clear (Double.of_Z z).
Proof.
  intros Hz. unfold Double.of_Z, binary_normalize.
  destruct z as [|p|p]; [exact I| |lia].
  unfold binary_round. destruct (shl_align _ _ _) as [mz ez].
  apply binary_round_aux_sign_clear.
Qed.

Lemma mul_sign_clear (x y : double) :
  Double.sign_clear x -> Double.nonneg_finite y ->
  Double.sign_clear (Double.mul x y).
Proof.
  unfold Double.mul, SFmul.
  destruct x as [sx|sx| |sx mx ex], y as [sy|sy| |sy my ey]; cbn;
    try tauto; intros -> Hy; try rewrite Hy; try reflexivity.
  subst sy. apply binary_round_aux_sign_clear.
Qed.

Lemma to_int64_sign_clear (d : double) :
  Double.sign_clear d -> Double.fits_int64 d = true -> 0 <= Double.to_int64 d.
Proof.
  unfold Double.to_int64. intros Hs ->.
  destruct d as [s|s| |s m e]; cbn in *; try lia.
  subst s. apply Z.shiftl_nonneg. lia.
Qed.

(** With a finite, non-negative time scale, scaling a non-negative time
    gives a non-negative time. *)
Lemma scale_delta_nonneg (c : Config.t) (dt : nanoseconds) :
  Double.nonneg_finite (Config.time_scale c) -> 0 <= dt ->
  scale_fits c dt = true -> 0 <= scale_delta c dt.
Proof.
  unfold scale_fits, scale_delta. intros Hts Hdt Hfits.
  destruct (Double.eqb _ _); cbn in *; [exact Hdt|].
  apply to_int64_sign_clear; [|exact Hfits].
  apply mul_sign_clear; [now apply of_Z_sign_clear|exact Hts].
Qed.

Lemma clamp_delta_nonneg (c : Config.t) (raw_elapsed : nanoseconds) :
  0 < Config.safety_max_delta c -> 0 <= raw_elapsed ->
  0 <= clamp_delta c raw_elapsed.
Proof. unfold clamp_delta. destruct (_ <? _); lia. Qed.

Lemma clamp_delta_below (c : Config.t) (raw_elapsed : nanoseconds) :
  raw_elapsed <= Config.safety_max_delta c ->
  clamp_delta c raw_elapsed = raw_elapsed.
Proof.
  unfold clamp_delta. intros Hle.
  now rewrite (proj2 (Z.ltb_ge _ _) Hle).
Qed.

Lemma max_acc_in_range (c : Config.t) :
  Int64.in_range
    (Config.step c * Z.of_N (Config.safety_max_accumulator_overflow c)) ->
  max_acc c
  = Config.step c * Z.of_N (Config.safety_max_accumulator_overflow c).
Proof. apply wrap64_id. Qed.

(** ** The accumulator *)

Section BalanceFacts.

Context {W : Type}.
Implicit Types (m : Machine W) (r : FixedTimestepRunner W).

(** The balance of one call on a running runner, when nothing wraps. *)
Lemma advance_running_balance raw_elapsed m :
  m_paused (runner m) = false ->
  0 < Config.step (m_config (runner m)) ->
  Int64.in_range
    (m_accumulator (runner m)
     + scaled_elapsed (m_config (runner m)) raw_elapsed) ->
  let c := m_config (runner m) in
  let r' := runner (snd (advance raw_elapsed m)) in
  let balance :=
    m_accumulator (runner m) + scaled_elapsed c raw_elapsed
    - Z.of_N (m_last_steps r') * Config.step c in
  leftover raw_elapsed m = balance /\
  m_accumulator r' = Z.min balance (max_acc c) /\
  (0 <= m_accumulator (runner m) + scaled_elapsed c raw_elapsed ->
   0 <= balance) /\
  ((m_last_steps r' < Config.safety_max_substeps c)%N -> balance < Config.step c).
Proof.
  intros Hp Hstep Hsum. cbv zeta.
  destruct (advance_running_numbers raw_elapsed m Hp) as (Hn & Ha & _).
  cbv zeta in Hn, Ha.
  destruct (accumulate_and_step_spec raw_elapsed m) as (Hnum & _).
  cbv zeta in Hnum. unfold leftover.
  set (c := m_config (runner m)) in *.
  set (a0 := m_accumulator (runner m) + scaled_elapsed c raw_elapsed) in *.
  unfold Int64.add in *. fold a0 in Hn, Ha, Hnum.
  rewrite (wrap64_id a0 Hsum) in *.
  pose proof (drain_accumulator (N.to_nat (Config.safety_max_substeps c)) c
                0%N a0 Hstep ltac:(apply Hsum)) as Hacc.
  pose proof (drain_exit (N.to_nat (Config.safety_max_substeps c)) c
                0%N a0 ltac:(lia)) as Hexit.
  destruct (drain _ c 0%N a0) as [steps acc'].
  cbn [fst snd] in *. rewrite N.sub_0_r in Hacc.
  destruct Hacc as (Heq & Hnn & _).
  injection Hnum as Hsteps Hleft.
  rewrite Hn, Ha, Hleft, Heq.
  repeat split; try lia.
  intros Hlt. apply andb_false_iff in Hexit as [Hexit|Hexit].
  - apply Z.leb_gt in Hexit. lia.
  - apply N.ltb_ge in Hexit. lia.
Qed.

End BalanceFacts.

(** C1, as the code has it.  On a running runner with a positive step, for
    an elapsed time between zero and [safety_max_delta] whose scaled value
    can be added to the accumulator without overflow: the step loop leaves
    the balance [before + scaled - steps * step], and the call ends with the
    smaller of that balance and the ceiling of the trim, so with the balance
    itself whenever it does not exceed the ceiling.  When fewer than
    [safety_max_substeps] steps were taken, the accumulator was not negative
    before the call and the time scale is finite and not negative, the
    accumulator ends in [0, step). *)
Theorem accumulator_balance {W : Type} (m : Machine W)
  (elapsed : nanoseconds) :
  paused (runner m) = false ->
  0 < step (runner m) ->
  0 <= elapsed <= max_delta (runner m) ->
  Int64.in_range
    (accumulator (runner m) + scale_delta (m_config (runner m)) elapsed) ->
  let c := m_config (runner m) in
  let m' := snd (push_time elapsed m) in
  let balance :=
    accumulator (runner m) + scale_delta c elapsed
    - Z.of_N (last_steps (runner m')) * step (runner m) in
  leftover elapsed m = balance /\
  accumulator (runner m') = Z.min balance (max_acc c) /\
  (balance <= max_acc c -> accumulator (runner m') = balance) /\
  ((last_steps (runner m') < max_substeps (runner m))%N ->
   0 <= accumulator (runner m) ->
   Double.nonneg_finite (time_scale (runner m)) ->
   scale_fits c elapsed = true ->
   Int64.in_range
     (step (runner m) * Z.of_N (Config.safety_max_accumulator_overflow c)) ->
   0 <= accumulator (runner m') < step (runner m)).
Proof.
  unfold paused, step, max_delta, accumulator, last_steps, max_substeps,
    time_scale, push_time.
  intros Hp Hstep Helapsed Hsum. cbv zeta.
  assert (Hscaled : scaled_elapsed (m_config (runner m)) elapsed
                    = scale_delta (m_config (runner m)) elapsed).
  { unfold scaled_elapsed. now rewrite clamp_delta_below. }
  rewrite <- Hscaled in *.
  destruct (advance_running_balance elapsed m Hp Hstep Hsum)
    as (Hleft & Hacc & Hnn & Hexit).
  cbv zeta in Hleft, Hacc, Hnn, Hexit.
  split; [exact Hleft|]. split; [exact Hacc|]. split; [lia|].
  intros Hlt Hbefore Hts Hfits Hceil.
  rewrite Hscaled in Hnn.
  pose proof (scale_delta_nonneg _ _ Hts (proj1 Helapsed) Hfits) as Hs.
  rewrite <- Hscaled in Hnn, Hs.
  specialize (Hnn ltac:(lia)). specialize (Hexit Hlt).
  rewrite Hacc, (max_acc_in_range _ Hceil).
  assert (0 <= Config.step (m_config (runner m))
               * Z.of_N (Config.safety_max_accumulator_overflow
                           (m_config (runner m)))) by nia.
  lia.
Qed.

Lemma accumulator_balance_witness :
  let m := fresh (Some always_returns) (config_100ms (ms 250) 8%N) in
  paused (runner m) = false /\
  0 < step (runner m) /\
  0 <= ms 250 <= max_delta (runner m) /\
  Int64.in_range
    (accumulator (runner m) + scale_delta (m_config (runner m)) (ms 250)) /\
  last_steps (runner (snd (push_time (ms 250) m))) = 2%N /\
  accumulator (runner (snd (push_time (ms 250) m)))
  = Z.min (0 + ms 250 - 2 * ms 100) (3 * ms 100) /\
  0 <= accumulator (runner (snd (push_time (ms 250) m))) < ms 100.
Proof.
  set (m := fresh (Some always_returns) (config_100ms (ms 250) 8%N)).
  cbv zeta.
  assert (Hel : 0 <= ms 250 <= max_delta (runner m))
    by (vm_compute; split; discriminate).
  assert (Hsum : Int64.in_range
            (accumulator (runner m)
             + scale_delta (m_config (runner m)) (ms 250)))
    by (vm_compute; split; discriminate).
  split; [reflexivity|]. split; [reflexivity|].
  split; [exact Hel|]. split; [exact Hsum|].
  split; [reflexivity|].
  pose proof (accumulator_balance m (ms 250) eq_refl eq_refl Hel Hsum) as H.
  cbv zeta in H. destruct H as (_ & Hacc & _ & Hbounds).
  split; [rewrite Hacc; reflexivity|].
  apply Hbounds; try reflexivity.
  vm_compute; split; discriminate.
Defined.

(** The balance alone is not what the call leaves: with the default
    configuration, 250 ms (the default clamp) from an empty accumulator take
    the eight steps the cap allows, and of the 116 666 664 ns of the balance
    the trim keeps three steps, 50 000 001 ns. *)
Lemma accumulator_balance_broken_by_trim :
  let m := default_machine in
  let elapsed := k_default_max_delta in
  let m' := snd (push_time elapsed m) in
  paused (runner m) = false /\
  0 <= elapsed <= max_delta (runner m) /\
  0 <= accumulator (runner m) /\
  last_steps (runner m') = 8%N /\
  accumulator (runner m') = 50000001 /\
  accumulator (runner m) + scale_delta (m_config (runner m)) elapsed
  - Z.of_N (last_steps (runner m')) * step (runner m) = 116666664 /\
  accumulator (runner m')
  <> accumulator (runner m) + scale_delta (m_config (runner m)) elapsed
     - Z.of_N (last_steps (runner m')) * step (runner m).
Proof.
  vm_compute. repeat split; discriminate.
Qed.

(** ** The ceiling of the trim *)

(** C7, as the code has it.  After a call on a running runner, whatever the
    elapsed time and the accumulator before, the accumulator is at most the
    ceiling [max_acc] that the trim computes; a leftover of the step loop
    above the ceiling is replaced by exactly the ceiling, a leftover at or
    below it is kept; and the ceiling is [step *
    safety_max_accumulator_overflow] whenever that product is an
    [int64_t]. *)
Theorem accumulator_ceiling {W : Type} (m : Machine W)
  (elapsed : nanoseconds) :
  paused (runner m) = false ->
  let c := m_config (runner m) in
  let m' := snd (push_time elapsed m) in
  accumulator (runner m') <= max_acc c /\
  (max_acc c < leftover elapsed m -> accumulator (runner m') = max_acc c) /\
  (leftover elapsed m <= max_acc c ->
   accumulator (runner m') = leftover elapsed m) /\
  (Int64.in_range
     (step (runner m) * Z.of_N (Config.safety_max_accumulator_overflow c)) ->
   max_acc c
   = step (runner m) * Z.of_N (Config.safety_max_accumulator_overflow c)).
Proof.
  unfold paused, push_time, accumulator, step, leftover.
  intros Hp. cbv zeta. rewrite advance_running by exact Hp. cbn.
  rewrite trim_accumulator.
  destruct (accumulate_and_step_spec elapsed m) as (_ & (_ & Hcfg & _) & _).
  cbv zeta in Hcfg. rewrite Hcfg.
  repeat split; try lia. apply max_acc_in_range.
Qed.

Lemma accumulator_ceiling_witness :
  paused (runner capped_machine) = false /\
  leftover (ms 1000) capped_machine = ms 800 /\
  max_acc (m_config (runner capped_machine)) = ms 300 /\
  last_steps (runner (snd (push_time (ms 1000) capped_machine))) = 2%N /\
  accumulator (runner (snd (push_time (ms 1000) capped_machine))) = ms 300.
Proof.
  split; [reflexivity|]. split; [reflexivity|]. split; [reflexivity|].
  split; [reflexivity|].
  pose proof (accumulator_ceiling capped_machine (ms 1000) eq_refl) as H.
  cbv zeta in H. destruct H as (_ & Hclamp & _).
  rewrite Hclamp; [reflexivity|]. vm_compute. reflexivity.
Defined.

(** A paused call does not trim.  A runner that holds 50 ms, has its step
    shortened from 100 ms to 10 ms and is then paused keeps its 50 ms through
    [push_time], above the 30 ms of three steps. *)
Lemma accumulator_above_ceiling_when_paused :
  let m' := snd (push_time 0 shortened_machine) in
  paused (runner shortened_machine) = true /\
  accumulator (runner m') = ms 50 /\
  step (runner m')
  * Z.of_N (Config.safety_max_accumulator_overflow (m_config (runner m')))
  = ms 30 /\
  ~ accumulator (runner m')
    <= step (runner m')
       * Z.of_N (Config.safety_max_accumulator_overflow (m_config (runner m'))).
Proof.
  cbv zeta. split; [reflexivity|].
  assert (Ha : accumulator (runner (snd (push_time 0 shortened_machine)))
               = ms 50) by reflexivity.
  assert (Hc : step (runner (snd (push_time 0 shortened_machine)))
               * Z.of_N (Config.safety_max_accumulator_overflow
                           (m_config
                              (runner (snd (push_time 0 shortened_machine)))))
               = ms 30) by reflexivity.
  rewrite Ha, Hc. unfold ms. repeat split; lia.
Qed.

(** ** Sign of the accumulator *)

Section SignFacts.

Context {W : Type}.
Implicit Types (m : Machine W) (r : FixedTimestepRunner W).

(** A call on a running runner with a non-negative elapsed time, a
    well-formed configuration and no overflow keeps the accumulator
    non-negative. *)
Lemma advance_running_nonneg raw_elapsed m :
  m_paused (runner m) = false ->
  0 <= m_accumulator (runner m) ->
  0 <= raw_elapsed ->
  wf_config (m_config (runner m)) ->
  advance_in_range raw_elapsed (runner m) ->
  0 <= m_accumulator (runner (snd (advance raw_elapsed m))).
Proof.
  intros Hp Hacc Hraw (Hstep & Hmax & Hts) (Hfits & Hsum & Hceil).
  cbv zeta in Hfits, Hsum, Hceil.
  destruct (advance_running_balance raw_elapsed m Hp Hstep Hsum)
    as (_ & Ha & Hnn & _).
  cbv zeta in Ha, Hnn.
  pose proof (clamp_delta_nonneg _ _ Hmax Hraw) as Hclamp.
  pose proof (scale_delta_nonneg _ _ Hts Hclamp Hfits) as Hscaled.
  fold (scaled_elapsed (m_config (runner m)) raw_elapsed) in Hscaled.
  specialize (Hnn ltac:(lia)).
  rewrite Ha, (max_acc_in_range _ Hceil).
  assert (0 <= Config.step (m_config (runner m))
               * Z.of_N (Config.safety_max_accumulator_overflow
                           (m_config (runner m)))) by nia.
  lia.
Qed.

End SignFacts.

(** C3, as the code has it.  The accumulator is zero in a runner just
    constructed.  [reset], [pause], [resume], [toggle_pause] and every setter
    keep it non-negative, and so do [tick] and [push_time] on a paused
    runner.  On a running runner [tick] and [push_time] keep it non-negative
    when the elapsed time they feed to [advance] is not negative, the
    configuration is well formed and nothing overflows. *)
Theorem accumulator_stays_non_negative {W : Type} (o : operation)
  (m : Machine W) :
  0 <= accumulator (runner m) ->
  (forall elapsed, fed_elapsed o (runner m) = Some elapsed ->
     0 <= elapsed /\
     wf_config (m_config (runner m)) /\
     advance_in_range elapsed (runner m)) ->
  accumulator (@default_runner W) = 0 /\
  (forall fn c now, accumulator (@make_runner W fn c now) = 0) /\
  0 <= accumulator (runner (perform o m)).
Proof.
  unfold accumulator. intros Hacc Hfed.
  split; [reflexivity|]. split; [reflexivity|].
  unfold fed_elapsed in Hfed.
  destruct o; cbn [perform on_runner with_runner runner];
    try (cbn; exact Hacc).
  - (* reset *) destruct start_now; cbn; lia.
  - (* tick *)
    destruct (m_paused (runner m)) eqn:Hp.
    + rewrite tick_paused by exact Hp. exact Hacc.
    + rewrite tick_running by exact Hp.
      destruct (Hfed _ eq_refl) as (Hel & Hwf & Hrange).
      apply advance_running_nonneg; assumption.
  - (* push_time *)
    unfold push_time. destruct (m_paused (runner m)) eqn:Hp.
    + rewrite advance_paused by exact Hp. exact Hacc.
    + destruct (Hfed _ eq_refl) as (Hel & Hwf & Hrange).
      apply advance_running_nonneg; assumption.
  - (* set_hz *) unfold set_hz. destruct (Double.leb _ _); exact Hacc.
  - (* set_step *) unfold set_step. destruct (_ <=? _); exact Hacc.
  - (* set_max_delta *)
    unfold set_max_delta. destruct (_ <=? _); exact Hacc.
Qed.

Lemma accumulator_stays_non_negative_witness :
  let m := fresh (Some always_returns) (config_100ms (ms 250) 8%N) in
  0 <= accumulator (runner m) /\
  (forall elapsed,
     fed_elapsed (PushTime (ms 250)) (runner m) = Some elapsed ->
     0 <= elapsed /\
     wf_config (m_config (runner m)) /\
     advance_in_range elapsed (runner m)) /\
  0 <= accumulator (runner (perform (PushTime (ms 250)) m)).
Proof.
  set (m := fresh (Some always_returns) (config_100ms (ms 250) 8%N)).
  cbv zeta.
  assert (Hacc : 0 <= accumulator (runner m)) by (vm_compute; discriminate).
  assert (Hfed : forall elapsed,
            fed_elapsed (PushTime (ms 250)) (runner m) = Some elapsed ->
            0 <= elapsed /\
            wf_config (m_config (runner m)) /\
            advance_in_range elapsed (runner m)).
  { intros elapsed Hsome. injection Hsome as <-.
    split; [vm_compute; discriminate|].
    split.
    - repeat split.
    - repeat split; vm_compute; discriminate. }
  split; [exact Hacc|]. split; [exact Hfed|].
  exact (proj2 (proj2
    (accumulator_stays_non_negative (PushTime (ms 250)) m Hacc Hfed))).
Defined.

(** [push_time] takes any signed duration and adds it as it is: 50 ms less
    than nothing leave the accumulator of a new runner at -50 ms. *)
Lemma accumulator_negative_after_negative_elapsed :
  let m := default_machine in
  let m' := perform (PushTime (- ms 50)) m in
  accumulator (runner m) = 0 /\
  paused (runner m) = false /\
  last_steps (runner m') = 0%N /\
  accumulator (runner m') = - ms 50 /\
  ~ 0 <= accumulator (runner m').
Proof.
  cbv zeta.
  assert (Ha : accumulator
                 (runner (perform (PushTime (- ms 50)) default_machine))
               = - ms 50) by reflexivity.
  rewrite Ha. unfold ms. repeat split. lia.
Qed.

(** ** Doubles of integers below [2 ^ 53]

    [alpha()] divides two converted tick counts.  Below [2 ^ 53] the
    conversion is exact, and the quotient is the exact quotient rounded to
    nearest; the lemmas of this part follow the rounding of [SpecFloat] far
    enough to bound that quotient. *)

Lemma digits2_pos_bounds (p : positive) :
  2 ^ (Zpos (digits2_pos p) - 1) <= Zpos p < 2 ^ Zpos (digits2_pos p).
Proof.
  induction p as [p IH|p IH|]; cbn [digits2_pos].
  - rewrite Pos2Z.inj_succ, Z.pow_succ_r by lia.
    replace (Z.succ (Zpos (digits2_pos p)) - 1)
      with (Z.succ (Zpos (digits2_pos p) - 1)) by lia.
    rewrite Z.pow_succ_r by lia. lia.
  - rewrite Pos2Z.inj_succ, Z.pow_succ_r by lia.
    replace (Z.succ (Zpos (digits2_pos p)) - 1)
      with (Z.succ (Zpos (digits2_pos p) - 1)) by lia.
    rewrite Z.pow_succ_r by lia. lia.
  - cbn. lia.
Qed.

Lemma digits2_pos_unique (p : positive) (d : Z) :
  2 ^ (d - 1) <= Zpos p < 2 ^ d -> Zpos (digits2_pos p) = d.
Proof.
  intros [Hlo Hhi]. pose proof (digits2_pos_bounds p) as [Hlo' Hhi'].
  destruct (Z.lt_trichotomy (Zpos (digits2_pos p)) d) as [Hlt|[Heq|Hgt]];
    [|exact Heq|].
  - assert (d - 1 < 0 \/ 0 <= d - 1) as [Hneg|Hnn] by lia.
    + rewrite Z.pow_neg_r in Hlo by lia. lia.
    + pose proof (Z.pow_le_mono_r 2 (Zpos (digits2_pos p)) (d - 1)
                    ltac:(lia) ltac:(lia)). lia.
  - assert (d < 0 \/ 0 <= d) as [Hneg|Hnn] by lia.
    + rewrite Z.pow_neg_r in Hhi by lia. lia.
    + pose proof (Z.pow_le_mono_r 2 d (Zpos (digits2_pos p) - 1)
                    ltac:(lia) ltac:(lia)). lia.
Qed.

Lemma pos_iter_xO (p j : positive) :
  Zpos (Pos.iter xO p j) = Zpos p * 2 ^ Zpos j.
Proof.
  induction j as [|j IH] using Pos.peano_ind.
  - cbn. lia.
  - rewrite Pos.iter_succ, Pos2Z.inj_xO, IH, Pos2Z.inj_succ, Z.pow_succ_r by lia.
    lia.
Qed.

Lemma fexp_normal (e : Z) :
  -1074 <= e -> fexp Double.prec Double.emax (53 + e) = e.
Proof. unfold fexp, emin, Double.prec, Double.emax. lia. Qed.

Lemma Zdigits2_normal (m : positive) :
  2 ^ 52 <= Zpos m < 2 ^ 53 -> Zdigits2 (Zpos m) = 53.
Proof. intros H. cbn [Zdigits2]. apply digits2_pos_unique. exact H. Qed.

(** Rounding a mantissa of exactly 53 bits that carries no remainder leaves
    it as it is. *)
Lemma binary_round_aux_normal (s : bool) (m : positive) (e : Z) :
  2 ^ 52 <= Zpos m < 2 ^ 53 -> -1074 <= e <= 971 ->
  binary_round_aux Double.prec Double.emax s (Zpos m) e loc_Exact
  = S754_finite s m e.
Proof.
  intros Hm He. unfold binary_round_aux, shr_fexp.
  rewrite (Zdigits2_normal m Hm), fexp_normal, Z.sub_diag by lia.
  cbn [shr shr_record_of_loc shr_m loc_of_shr_record round_nearest_even].
  rewrite (Zdigits2_normal m Hm), fexp_normal, Z.sub_diag by lia.
  cbn [shr shr_record_of_loc shr_m].
  replace (e <=? Double.emax - Double.prec) with true; [reflexivity|].
  symmetry. apply Z.leb_le. unfold Double.emax, Double.prec. lia.
Qed.

Lemma of_Z_exact (z : Z) :
  0 < z < 2 ^ 53 ->
  exists m e,
    Double.of_Z z = S754_finite false m e /\
    2 ^ 52 <= Zpos m < 2 ^ 53 /\
    -52 <= e <= 0 /\
    Zpos m = z * 2 ^ (- e).
Proof.
  intros Hz. destruct z as [|p|p]; try lia.
  pose proof (digits2_pos_bounds p) as Hd.
  set (d := Zpos (digits2_pos p)) in *.
  assert (Hd53 : 1 <= d <= 53).
  { split; [unfold d; lia|].
    destruct (Z.le_gt_cases d 53) as [Hle|Hgt]; [exact Hle|].
    pose proof (Z.pow_le_mono_r 2 53 (d - 1) ltac:(lia) ltac:(lia)). lia. }
  unfold Double.of_Z, binary_normalize, binary_round, shl_align.
  fold d.
  assert (Hf : fexp Double.prec Double.emax (d + 0) = d - 53)
    by (unfold fexp, emin, Double.prec, Double.emax; lia).
  rewrite Hf.
  destruct (d - 53 - 0) as [|j|j] eqn:Hj; try lia.
  - assert (H53 : d = 53) by lia. rewrite H53 in Hd.
    change (53 - 1) with 52 in Hd.
    exists p, 0.
    split; [apply binary_round_aux_normal; [exact Hd|lia]|].
    split; [exact Hd|]. split; [lia|]. cbn. lia.
  - assert (H53 : 53 = d + Zpos j) by lia.
    assert (Hm : 2 ^ 52 <= Zpos (Pos.iter xO p j) < 2 ^ 53).
    { rewrite pos_iter_xO.
      replace 52 with ((d - 1) + Zpos j) by lia.
      rewrite H53. rewrite !Z.pow_add_r by lia.
      pose proof (Z.pow_pos_nonneg 2 (Zpos j) ltac:(lia) ltac:(lia)). nia. }
    exists (Pos.iter xO p j), (d - 53).
    split; [apply binary_round_aux_normal; [exact Hm|lia]|].
    split; [exact Hm|]. split; [lia|].
    rewrite pos_iter_xO. f_equal. f_equal. lia.
Qed.

Lemma loc_of_shr_record_of_loc (m : Z) (l : location) :
  loc_of_shr_record (shr_record_of_loc m l) = l.
Proof. destruct l as [|[| |]]; reflexivity. Qed.

Lemma shr_m_of_loc (m : Z) (l : location) :
  shr_m (shr_record_of_loc m l) = m.
Proof. destruct l as [|[| |]]; reflexivity. Qed.

Lemma round_nearest_even_bounds (m : Z) (l : location) :
  m <= round_nearest_even m l <= m + 1.
Proof.
  unfold round_nearest_even. destruct l as [|[| |]]; try lia.
  destruct (Z.even m); lia.
Qed.

Lemma shr_1_spec (mrs : shr_record) :
  0 <= shr_m mrs ->
  shr_m (shr_1 mrs) = Z.div2 (shr_m mrs) /\
  shr_r (shr_1 mrs) = Z.odd (shr_m mrs).
Proof.
  destruct mrs as [m r s]. cbn [shr_m]. intros Hm.
  destruct m as [|[p|p|]|p]; try lia; split; reflexivity.
Qed.

(** Without a round bit the value is rounded down. *)
Lemma round_nearest_even_no_round_bit (mrs : shr_record) :
  shr_r mrs = false ->
  round_nearest_even (shr_m mrs) (loc_of_shr_record mrs) = shr_m mrs.
Proof. destruct mrs as [m r [|]]; cbn; intros ->; reflexivity. Qed.

(** The second pass of [binary_round_aux], which renormalises a mantissa
    that rounding carried up to [2 ^ 53]. *)
Lemma renormalise (s : bool) (q e : Z) :
  2 ^ 52 <= q <= 2 ^ 53 -> -1074 <= e <= 970 ->
  exists M j,
    (let '(mrs, e') := shr_fexp Double.prec Double.emax q e loc_Exact in
     match shr_m mrs with
     | Z0 => S754_zero s
     | Zpos m =>
         if e' <=? Double.emax - Double.prec then S754_finite s m e'
         else S754_infinity s
     | Zneg _ => S754_nan
     end) = S754_finite s M (e + j) /\
    2 ^ 52 <= Zpos M < 2 ^ 53 /\
    0 <= j <= 1 /\
    Zpos M * 2 ^ j = q.
Proof.
  intros Hq He.
  assert (Hle : forall j, 0 <= j <= 1 ->
            (e + j <=? Double.emax - Double.prec) = true).
  { intros j Hj. apply Z.leb_le. unfold Double.emax, Double.prec. lia. }
  destruct (Z.eq_dec q (2 ^ 53)) as [->|Hne].
  - exists (4503599627370496)%positive, 1.
    unfold shr_fexp.
    change (Zdigits2 (2 ^ 53)) with 54.
    replace (fexp Double.prec Double.emax (54 + e) - e) with 1
      by (unfold fexp, emin, Double.prec, Double.emax; lia).
    cbn [shr shr_record_of_loc iter_pos].
    change (shr_m (shr_1 {| shr_m := 2 ^ 53; shr_r := false; shr_s := false |}))
      with (Zpos 4503599627370496).
    cbv iota beta. rewrite Hle by lia.
    repeat split; lia.
  - destruct q as [|p|p]; try lia.
    exists p, 0. unfold shr_fexp.
    rewrite Zdigits2_normal, fexp_normal, Z.sub_diag by lia.
    cbn [shr shr_record_of_loc shr_m]. rewrite Z.add_0_r.
    replace (e <=? Double.emax - Double.prec) with true
      by (symmetry; rewrite <- (Z.add_0_r e); apply Hle; lia).
    repeat split; lia.
Qed.

(** Rounding a mantissa of 53 or 54 bits to nearest: the result is a normal
    double, not above the mantissa plus one, and equal to an even mantissa
    that carries no remainder. *)
Lemma binary_round_aux_bound (q e : Z) (l : location) :
  2 ^ 52 <= q < 2 ^ 54 -> -1074 <= e <= 960 ->
  exists M j,
    binary_round_aux Double.prec Double.emax false q e l
    = S754_finite false M (e + j) /\
    2 ^ 52 <= Zpos M < 2 ^ 53 /\
    0 <= j <= 2 /\
    Zpos M * 2 ^ j <= q + 1 /\
    (l = loc_Exact -> Z.even q = true -> Zpos M * 2 ^ j = q).
Proof.
  intros Hq He. unfold binary_round_aux.
  destruct (Z.lt_ge_cases q (2 ^ 53)) as [Hlt|Hge].
  - (* 53 bits: no shift before rounding *)
    unfold shr_fexp at 1. destruct q as [|p|p]; try lia.
    rewrite Zdigits2_normal, fexp_normal, Z.sub_diag by lia.
    cbn [shr]. rewrite loc_of_shr_record_of_loc, shr_m_of_loc.
    pose proof (round_nearest_even_bounds (Zpos p) l) as Hr.
    destruct (renormalise false (round_nearest_even (Zpos p) l) e
                ltac:(lia) ltac:(lia)) as (M & j & Heq & HM & Hj & Hval).
    exists M, j. split; [exact Heq|]. split; [exact HM|].
    split; [lia|]. split; [lia|].
    intros -> _. exact Hval.
  - (* 54 bits: one shift before rounding *)
    unfold shr_fexp at 1. destruct q as [|p|p]; try lia.
    assert (Hd : Zdigits2 (Zpos p) = 54).
    { cbn [Zdigits2]. apply digits2_pos_unique. change (54 - 1) with 53. lia. }
    rewrite Hd.
    replace (fexp Double.prec Double.emax (54 + e) - e) with 1
      by (unfold fexp, emin, Double.prec, Double.emax; lia).
    cbn [shr iter_pos].
    set (mrs := shr_1 (shr_record_of_loc (Zpos p) l)).
    destruct (shr_1_spec (shr_record_of_loc (Zpos p) l)) as [Hm Hr].
    { rewrite shr_m_of_loc. lia. }
    rewrite shr_m_of_loc in Hm, Hr. fold mrs in Hm, Hr.
    pose proof (Z.div2_odd (Zpos p)) as Hp.
    pose proof (round_nearest_even_bounds (shr_m mrs) (loc_of_shr_record mrs))
      as Hb.
    assert (Hh : 2 ^ 52 <= Z.div2 (Zpos p) < 2 ^ 53)
      by (destruct (Z.odd (Zpos p)); cbn [Z.b2z] in Hp; lia).
    destruct (renormalise false
                (round_nearest_even (shr_m mrs) (loc_of_shr_record mrs))
                (e + 1) ltac:(lia) ltac:(lia)) as (M & j & Heq & HM & Hj & Hval).
    exists M, (1 + j). rewrite Z.add_assoc.
    split; [exact Heq|]. split; [exact HM|]. split; [lia|].
    rewrite Z.pow_add_r, Z.pow_1_r by lia.
    assert (Hround : 2 * round_nearest_even (shr_m mrs) (loc_of_shr_record mrs)
                     <= Zpos p + 1 /\
                     (Z.even (Zpos p) = true ->
                      2 * round_nearest_even (shr_m mrs) (loc_of_shr_record mrs)
                      = Zpos p)).
    { destruct (Z.odd (Zpos p)) eqn:Hodd; cbn [Z.b2z] in Hp.
      - split; [lia|]. rewrite <- Z.negb_odd, Hodd. discriminate.
      - rewrite round_nearest_even_no_round_bit by exact Hr.
        split; lia. }
    split; [lia|]. intros _ Heven. apply Hround in Heven. lia.
Qed.

Lemma new_location_exact (n : Z) : new_location n 0 = loc_Exact.
Proof.
  unfold new_location, new_location_even, new_location_odd.
  destruct (Z.even n); reflexivity.
Qed.

(** The quotient of two normal doubles with small exponents: the integer
    quotient of the mantissas, with 53 more bits, rounded. *)
Lemma div_normal (m1 m2 : positive) (e1 e2 : Z) :
  2 ^ 52 <= Zpos m1 < 2 ^ 53 -> 2 ^ 52 <= Zpos m2 < 2 ^ 53 ->
  -52 <= e1 <= 0 -> -52 <= e2 <= 0 ->
  Double.div (S754_finite false m1 e1) (S754_finite false m2 e2)
  = binary_round_aux Double.prec Double.emax false
      (Zpos m1 * 2 ^ 53 / Zpos m2) (e1 - e2 - 53)
      (new_location (Zpos m2) ((Zpos m1 * 2 ^ 53) mod Zpos m2)).
Proof.
  intros H1 H2 He1 He2.
  unfold Double.div, SFdiv, SFdiv_core_binary. cbn [xorb].
  rewrite !Zdigits2_normal by assumption.
  replace (Z.min (fexp Double.prec Double.emax (53 + e1 - (53 + e2)))
             (e1 - e2))
    with (e1 - e2 - 53)
    by (unfold fexp, emin, Double.prec, Double.emax; lia).
  replace (e1 - e2 - (e1 - e2 - 53)) with 53 by lia.
  cbv iota. rewrite Z.shiftl_mul_pow2 by lia.
  unfold Z.div, Z.modulo.
  destruct (Z.div_eucl (Zpos m1 * 2 ^ 53) (Zpos m2)) as [q r]. reflexivity.
Qed.

(** Comparing two normal doubles by comparing their values. *)
Lemma compare_by_value (M mK : positive) (E eK t : Z) :
  2 ^ 52 <= Zpos M < 2 ^ 53 -> 2 ^ 52 <= Zpos mK < 2 ^ 53 ->
  0 <= E + t -> 0 <= eK + t ->
  (Zpos M * 2 ^ (E + t) <= Zpos mK * 2 ^ (eK + t) ->
   Double.leb (S754_finite false M E) (S754_finite false mK eK) = true) /\
  (Zpos M * 2 ^ (E + t) < Zpos mK * 2 ^ (eK + t) ->
   Double.ltb (S754_finite false M E) (S754_finite false mK eK) = true).
Proof.
  intros HM HK HE HeK.
  unfold Double.leb, Double.ltb, SFleb, SFltb, SFcompare.
  pose proof (Z.pow_pos_nonneg 2 (eK + t) ltac:(lia) HeK) as Hpos.
  destruct (Z.compare_spec E eK) as [->|Hlt|Hgt].
  - rewrite Pos.compare_cont_spec.
    change (Pos.compare M mK) with (Z.compare (Zpos M) (Zpos mK)).
    destruct (Z.compare_spec (Zpos M) (Zpos mK)) as [Heq|Hlt|Hgt];
      cbn [Pos.switch_Eq]; split; intros Hv; try reflexivity;
      exfalso; nia.
  - split; reflexivity.
  - replace (E + t) with ((eK + t) + (E - eK)) by lia.
    rewrite Z.pow_add_r by lia.
    assert (HY : 2 <= 2 ^ (E - eK)).
    { change 2 with (2 ^ 1) at 1. apply Z.pow_le_mono_r; lia. }
    set (X := 2 ^ (eK + t)) in *. set (Y := 2 ^ (E - eK)) in *.
    assert (HMY : 2 ^ 53 <= Zpos M * Y) by nia.
    assert (HXY : X * 2 ^ 53 <= Zpos M * (X * Y)).
    { replace (Zpos M * (X * Y)) with (X * (Zpos M * Y)) by ring.
      apply Z.mul_le_mono_nonneg_l; lia. }
    assert (HKX : Zpos mK * X < X * 2 ^ 53) by nia.
    split; intros Hv; exfalso; lia.
Qed.

(** The double quotient of two positive integers below [2 ^ 53]: a normal
    double whose value is at most every integer bound of the exact quotient,
    and below one when the exact quotient is. *)
Lemma div_of_Z_value (a s : Z) :
  0 < a < 2 ^ 53 -> 0 < s < 2 ^ 53 ->
  exists M E,
    Double.div (Double.of_Z a) (Double.of_Z s) = S754_finite false M E /\
    2 ^ 52 <= Zpos M < 2 ^ 53 /\
    -105 <= E <= 1 /\
    (forall k, a <= k * s -> Zpos M * 2 ^ (E + 105) <= k * 2 ^ 105) /\
    (a < s -> Zpos M * 2 ^ (E + 105) < 2 ^ 105).
Proof.
  intros Ha Hs.
  destruct (of_Z_exact a Ha) as (A & ea & -> & HA & Hea & HAa).
  destruct (of_Z_exact s Hs) as (S & es & -> & HS & Hes & HSs).
  rewrite div_normal by assumption.
  set (N := Zpos A * 2 ^ 53).
  pose proof (Z.div_mod N (Zpos S) ltac:(lia)) as Hdiv.
  pose proof (Z.mod_pos_bound N (Zpos S) ltac:(lia)) as Hr.
  set (q := N / Zpos S) in *. set (r := N mod Zpos S) in *.
  assert (Hq : 2 ^ 52 <= q < 2 ^ 54) by (unfold N in Hdiv; nia).
  set (e' := ea - es - 53).
  destruct (binary_round_aux_bound q e' (new_location (Zpos S) r)
              Hq ltac:(unfold e'; lia))
    as (M & j & -> & HM & Hj & Hup & Hexact).
  exists M, (e' + j). split; [reflexivity|]. split; [exact HM|].
  split; [unfold e'; lia|].
  (* the powers of two between the integers and their mantissas *)
  set (P := - e').
  assert (HP : 1 <= P <= 105) by (unfold P, e'; lia).
  set (TA := 2 ^ (- ea)) in *. set (V := 2 ^ (- es)) in *. set (U := 2 ^ P).
  assert (HTA : 0 < TA) by (apply Z.pow_pos_nonneg; lia).
  assert (HV : 0 < V) by (apply Z.pow_pos_nonneg; lia).
  assert (HU : 0 < U) by (apply Z.pow_pos_nonneg; lia).
  assert (HUV : U * V = TA * 2 ^ 53).
  { unfold U, V, TA. rewrite <- !Z.pow_add_r by lia. f_equal.
    unfold P, e'. lia. }
  assert (HN : N = a * (U * V)) by (unfold N; rewrite HAa, HUV; ring).
  set (R := 2 ^ (105 - P)).
  assert (HR : 0 < R) by (apply Z.pow_pos_nonneg; lia).
  assert (HUR : U * R = 2 ^ 105).
  { unfold U, R. rewrite <- Z.pow_add_r by lia. f_equal. lia. }
  assert (Hscale : Zpos M * 2 ^ (e' + j + 105) = Zpos M * 2 ^ j * R).
  { unfold R. rewrite <- Z.mul_assoc, <- Z.pow_add_r by lia.
    f_equal. f_equal. unfold P. lia. }
  rewrite Hscale.
  assert (Hbound : forall kU, 0 <= kU -> Z.even kU = true ->
            Zpos S * q + r <= kU * Zpos S -> Zpos M * 2 ^ j <= kU).
  { intros kU HkU Heven Hle.
    assert (Hqk : q <= kU) by nia.
    destruct (Z.eq_dec q kU) as [Heq|Hne]; [|lia].
    assert (Hr0 : r = 0) by nia.
    rewrite Hr0, new_location_exact in Hexact.
    rewrite Hexact; [lia|reflexivity|]. now rewrite Heq. }
  split.
  - intros k Hk.
    assert (Hk0 : 0 < k) by nia.
    rewrite <- HUR.
    assert (Zpos M * 2 ^ j <= k * U); [|nia].
    apply Hbound.
    + nia.
    + rewrite Z.even_mul. unfold U. rewrite Z.even_pow by lia.
      now rewrite orb_true_r.
    + rewrite <- Hdiv, HN, HSs. fold V.
      replace (k * U * (s * V)) with (k * s * (U * V)) by ring.
      apply Z.mul_le_mono_nonneg_r; nia.
  - intros Hlt. rewrite <- HUR.
    assert (Zpos M * 2 ^ j < U); [|nia].
    assert (Hq2 : q + 1 < U); [|lia].
    assert (HSUV : Zpos S < U * V) by (rewrite HUV; nia).
    assert (HsUV : Zpos S * U = s * (U * V)) by (rewrite HSs; fold V; ring).
    assert (N <= Zpos S * U - U * V).
    { rewrite HN, HsUV.
      replace (s * (U * V) - U * V) with ((s - 1) * (U * V)) by ring.
      apply Z.mul_le_mono_nonneg_r; nia. }
    nia.
Qed.

Lemma one_normal : Double.one = S754_finite false 4503599627370496 (-52).
Proof. reflexivity. Qed.

(** The double quotient of two tick counts below [2 ^ 53] is not negative. *)
Lemma div_of_Z_nonneg (a s : Z) :
  0 <= a < 2 ^ 53 -> 0 < s < 2 ^ 53 ->
  Double.leb Double.zero (Double.div (Double.of_Z a) (Double.of_Z s)) = true.
Proof.
  intros Ha Hs. destruct (Z.eq_dec a 0) as [->|Hne].
  - destruct (of_Z_exact s Hs) as (S & es & -> & _). reflexivity.
  - destruct (div_of_Z_value a s ltac:(lia) Hs) as (M & E & -> & _).
    reflexivity.
Qed.

(** It is at most every integer below [2 ^ 53] that bounds the exact
    quotient. *)
Lemma div_of_Z_leb (a s k : Z) :
  0 <= a < 2 ^ 53 -> 0 < s < 2 ^ 53 -> 0 <= k < 2 ^ 53 -> a <= k * s ->
  Double.leb (Double.div (Double.of_Z a) (Double.of_Z s)) (Double.of_Z k)
  = true.
Proof.
  intros Ha Hs Hk Hle. destruct (Z.eq_dec a 0) as [->|Hne].
  - destruct (of_Z_exact s Hs) as (S & es & -> & _).
    destruct (Z.eq_dec k 0) as [->|Hk0]; [reflexivity|].
    destruct (of_Z_exact k ltac:(lia)) as (mK & eK & -> & _). reflexivity.
  - assert (Hk0 : 0 < k) by nia.
    destruct (div_of_Z_value a s ltac:(lia) Hs)
      as (M & E & -> & HM & HE & Hup & _).
    destruct (of_Z_exact k ltac:(lia)) as (mK & eK & -> & HmK & HeK & HKk).
    apply (compare_by_value M mK E eK 105 HM HmK); try lia.
    rewrite HKk, <- Z.mul_assoc, <- Z.pow_add_r by lia.
    replace (- eK + (eK + 105)) with 105 by lia.
    now apply Hup.
Qed.

(** It is below one when the dividend is below the divisor. *)
Lemma div_of_Z_ltb_one (a s : Z) :
  0 <= a < s -> s < 2 ^ 53 ->
  Double.ltb (Double.div (Double.of_Z a) (Double.of_Z s)) Double.one = true.
Proof.
  intros Ha Hs. rewrite one_normal. destruct (Z.eq_dec a 0) as [->|Hne].
  - destruct (of_Z_exact s ltac:(lia)) as (S & es & -> & _). reflexivity.
  - destruct (div_of_Z_value a s ltac:(lia) ltac:(lia))
      as (M & E & -> & HM & HE & _ & Hlt).
    specialize (Hlt ltac:(lia)).
    apply (compare_by_value M 4503599627370496 E (-52) 105 HM); lia.
Qed.

(** ** Alpha *)

(** The bounds that alpha does obey.  After a call on a running runner with
    a well-formed configuration, a non-negative accumulator, a non-negative
    elapsed time and no overflow, the call returns [alpha()], and the exact
    quotient of accumulator and step lies in the closed interval from zero to
    [safety_max_accumulator_overflow], and below one whenever fewer than
    [safety_max_substeps] steps were taken.  When the step and the ceiling of
    the trim are below [2 ^ 53] ns, the double that [alpha()] returns obeys
    the same bounds. *)
Lemma alpha_between_zero_and_overflow {W : Type} (m : Machine W) (elapsed : nanoseconds) :
  paused (runner m) = false ->
  wf_config (m_config (runner m)) ->
  0 <= accumulator (runner m) ->
  0 <= elapsed ->
  advance_in_range elapsed (runner m) ->
  let c := m_config (runner m) in
  let overflow := Z.of_N (Config.safety_max_accumulator_overflow c) in
  let m' := snd (push_time elapsed m) in
  fst (push_time elapsed m) = alpha (runner m') /\
  (0 <= alpha_exact (runner m') <= inject_Z overflow)%Q /\
  ((last_steps (runner m') < max_substeps (runner m))%N ->
   (alpha_exact (runner m') < 1)%Q) /\
  (step (runner m) < 2 ^ 53 -> step (runner m) * overflow < 2 ^ 53 ->
   Double.leb Double.zero (alpha (runner m')) = true /\
   Double.leb (alpha (runner m')) (Double.of_Z overflow) = true /\
   ((last_steps (runner m') < max_substeps (runner m))%N ->
    Double.ltb (alpha (runner m')) Double.one = true)).
Proof.
  unfold paused, accumulator, last_steps, max_substeps, step, push_time.
  intros Hp Hwf Hacc Hel Hrange. cbv zeta.
  pose proof (advance_running_nonneg elapsed m Hp Hacc Hel Hwf Hrange)
    as Hnn.
  destruct Hwf as (Hstep & Hmax & Hts).
  destruct Hrange as (Hfits & Hsum & Hceil). cbv zeta in Hfits, Hsum, Hceil.
  destruct (advance_running_balance elapsed m Hp Hstep Hsum)
    as (_ & Ha & _ & Hexit).
  cbv zeta in Ha, Hexit.
  destruct (advance_running_numbers elapsed m Hp) as (_ & _ & Hcfg).
  cbv zeta in Hcfg.
  rewrite (max_acc_in_range _ Hceil) in Ha.
  set (r' := runner (snd (advance elapsed m))) in *.
  set (c := m_config (runner m)) in *.
  set (overflow := Z.of_N (Config.safety_max_accumulator_overflow c)) in *.
  assert (Hle : m_accumulator r' <= Config.step c * overflow) by lia.
  assert (Hlt : (m_last_steps r' < Config.safety_max_substeps c)%N ->
                m_accumulator r' < Config.step c).
  { intros Hs. specialize (Hexit Hs). lia. }
  split; [apply advance_returns_alpha|].
  unfold alpha_exact, alpha. rewrite Hcfg.
  unfold Qle, Qlt. cbn [Qnum Qden inject_Z].
  rewrite Z2Pos.id by exact Hstep.
  split; [lia|]. split; [intros Hs; specialize (Hlt Hs); lia|].
  intros Hsmall Hceil53.
  assert (Hov : 0 <= overflow < 2 ^ 53) by (unfold overflow; nia).
  split; [apply div_of_Z_nonneg; lia|].
  split; [apply div_of_Z_leb; lia|].
  intros Hs. specialize (Hlt Hs). apply div_of_Z_ltb_one; lia.
Qed.

Lemma alpha_between_zero_and_overflow_at_250ms :
  let m := fresh (Some always_returns) (config_100ms (ms 250) 8%N) in
  paused (runner m) = false /\
  wf_config (m_config (runner m)) /\
  0 <= accumulator (runner m) /\
  0 <= ms 250 /\
  advance_in_range (ms 250) (runner m) /\
  last_steps (runner (snd (push_time (ms 250) m))) = 2%N /\
  Double.leb Double.zero (alpha (runner (snd (push_time (ms 250) m)))) = true
  /\ Double.leb (alpha (runner (snd (push_time (ms 250) m)))) (Double.of_Z 3)
     = true
  /\ Double.ltb (alpha (runner (snd (push_time (ms 250) m)))) Double.one
     = true.
Proof.
  set (m := fresh (Some always_returns) (config_100ms (ms 250) 8%N)).
  cbv zeta.
  assert (Hwf : wf_config (m_config (runner m))) by (repeat split).
  assert (Hacc : 0 <= accumulator (runner m)) by (vm_compute; discriminate).
  assert (Hel : 0 <= ms 250) by (vm_compute; discriminate).
  assert (Hrange : advance_in_range (ms 250) (runner m))
    by (repeat split; vm_compute; discriminate).
  split; [reflexivity|]. split; [exact Hwf|]. split; [exact Hacc|].
  split; [exact Hel|]. split; [exact Hrange|]. split; [reflexivity|].
  pose proof (alpha_between_zero_and_overflow m (ms 250) eq_refl Hwf Hacc Hel
                Hrange) as H.
  cbv zeta in H. destruct H as (_ & _ & _ & Hdouble).
  destruct Hdouble as (Hzero & Hover & Hone).
  - vm_compute. reflexivity.
  - vm_compute. reflexivity.
  - split; [exact Hzero|]. split; [exact Hover|].
    apply Hone. vm_compute. reflexivity.
Defined.

(** C4, where the code departs from it.  The doc comments of [tick],
    [push_time], [tick_with_clock] and [advance] promise an alpha in the
    range [0, 1), and that of [alpha()] one in the range [0, 1].  On a
    running runner with a step of 100 ms, a cap of two steps per call and a
    clamp of ten seconds, [push_time] of one second leaves 800 ms, which the
    trim cuts to 300 ms: the call returns an alpha of exactly 3, the overflow
    multiplier, outside the half-open interval of the claim and above one.
    [push_time] of 450 ms leaves 250 ms, which the trim does not touch: the
    call returns 2.5, without any trim.  And with a step of [2 ^ 54 + 2] ns,
    an accumulator one nanosecond short of the step, no step taken and no
    trim, the double division rounds to exactly 1. *)
Theorem alpha_outside_claimed_intervals :
  (wf_config (m_config (runner capped_machine)) /\
   paused (runner capped_machine) = false /\
   accumulator (runner capped_machine) = 0) /\
  (let m' := snd (push_time (ms 1000) capped_machine) in
   max_acc (m_config (runner capped_machine)) < leftover (ms 1000)
                                                  capped_machine /\
   fst (push_time (ms 1000) capped_machine) = Double.of_Z 3 /\
   alpha (runner m') = Double.of_Z 3 /\
   Double.ltb (alpha (runner m'))
     (Double.of_Z
        (Z.of_N (Config.safety_max_accumulator_overflow
                   (m_config (runner m'))))) = false /\
   Double.leb (alpha (runner m')) Double.one = false) /\
  (let m' := snd (push_time (ms 450) capped_machine) in
   leftover (ms 450) capped_machine
   <= max_acc (m_config (runner capped_machine)) /\
   accumulator (runner m') = ms 250 /\
   fst (push_time (ms 450) capped_machine)
   = Double.div (Double.of_Z 5) (Double.of_Z 2) /\
   alpha (runner m') = Double.div (Double.of_Z 5) (Double.of_Z 2) /\
   Double.ltb (alpha (runner m')) Double.one = false /\
   Double.leb (alpha (runner m')) Double.one = false) /\
  (let m' := snd (push_time (2 ^ 54 + 1) coarse_machine) in
   last_steps (runner m') = 0%N /\
   accumulator (runner m') = 2 ^ 54 + 1 /\
   accumulator (runner m') < step (runner m') /\
   alpha (runner m') = Double.one /\
   Double.ltb (alpha (runner m')) Double.one = false).
Proof.
  cbv zeta. split; [|split; [|split]].
  - split; [repeat split|]. split; reflexivity.
  - split; [vm_compute; reflexivity|]. split; [vm_compute; reflexivity|].
    split; [vm_compute; reflexivity|]. split; vm_compute; reflexivity.
  - split; [vm_compute; discriminate|]. split; [vm_compute; reflexivity|].
    split; [vm_compute; reflexivity|]. split; [vm_compute; reflexivity|].
    split; vm_compute; reflexivity.
  - split; [vm_compute; reflexivity|]. split; [vm_compute; reflexivity|].
    split; [vm_compute; reflexivity|]. split; vm_compute; reflexivity.
Qed.

(** ** The scenarios of the specification *)

(** Scenario A: 350 ms at a clamp of 250 ms and a step of 100 ms: two steps,
    50 ms left, alpha 0.5, and the raw 350 ms in [last_delta]. *)
Example scenario_clamp :
  let '(a, m') :=
    push_time (ms 350)
      (fresh (Some always_returns) (config_100ms (ms 250) 8%N)) in
  last_steps (runner m') = 2%N /\
  accumulator (runner m') = ms 50 /\
  a = half /\
  last_delta (runner m') = ms 350 /\
  world m' = 2%nat.
Proof. vm_compute. repeat split. Qed.

(** Scenario B: a second at a cap of two steps of 100 ms: two steps, 800 ms
    left by the loop, 300 ms left by the trim. *)
Example scenario_cap :
  let '(a, m') := push_time (ms 1000) capped_machine in
  last_steps (runner m') = 2%N /\
  leftover (ms 1000) capped_machine = ms 800 /\
  accumulator (runner m') = ms 300 /\
  a = Double.of_Z 3.
Proof. vm_compute. repeat split. Qed.

(** Scenario C: 300 ms in half time: 150 ms are added, one step is taken,
    50 ms are left. *)
Example scenario_time_scale :
  let '(a, m') := push_time (ms 300) half_time_machine in
  scaled_elapsed (m_config (runner half_time_machine)) (ms 300) = ms 150 /\
  last_steps (runner m') = 1%N /\
  accumulator (runner m') = ms 50.
Proof. vm_compute. repeat split. Qed.

(** Scenario D: a paused runner takes no step and keeps its accumulator and
    its alpha. *)
Example scenario_paused :
  let '(a, m') := push_time (ms 1000) paused_machine in
  last_steps (runner m') = 0%N /\
  accumulator (runner m') = accumulator (runner paused_machine) /\
  a = alpha (runner paused_machine) /\
  calls m' = calls paused_machine.
Proof. vm_compute. repeat split. Qed.


(** * Further properties of the runner *)

(** ** What a call leaves alone *)

Section FrameFacts.

Context {W : Type}.
Implicit Types (m : Machine W) (r : FixedTimestepRunner W).

Lemma trim_same_setup r : same_setup r (trim r).
Proof. unfold trim. destruct (_ <? _); repeat split. Qed.

(** [advance] assigns the accumulator, the error flag and the two telemetry
    members, and nothing else. *)
Lemma advance_setup raw_elapsed m :
  let r' := runner (snd (advance raw_elapsed m)) in
  m_on_update_function r' = m_on_update_function (runner m) /\
  m_config r' = m_config (runner m) /\
  m_last r' = m_last (runner m) /\
  m_paused r' = m_paused (runner m) /\
  m_on_error_function r' = m_on_error_function (runner m).
Proof.
  cbv zeta. destruct (m_paused (runner m)) eqn:Hp.
  - rewrite advance_paused by exact Hp. cbn. rewrite Hp. repeat split.
  - rewrite advance_running by exact Hp. cbn.
    destruct (accumulate_and_step_spec raw_elapsed m)
      as (_ & (Hfn & Hcfg & Hlast & Hpaused & Herr & _) & _).
    cbv zeta in Hfn, Hcfg, Hlast, Hpaused, Herr.
    destruct (trim_same_setup (runner (accumulate_and_step raw_elapsed m)))
      as (-> & -> & -> & -> & -> & _).
    rewrite Hp in Hpaused. repeat split; assumption.
Qed.

Lemma advance_last_delta raw_elapsed m :
  m_last_delta (runner (snd (advance raw_elapsed m)))
  = if m_paused (runner m) then 0 else raw_elapsed.
Proof.
  destruct (m_paused (runner m)) eqn:Hp.
  - rewrite advance_paused by exact Hp. reflexivity.
  - rewrite advance_running by exact Hp. cbn.
    destruct (accumulate_and_step_spec raw_elapsed m)
      as (_ & (_ & _ & _ & _ & _ & Hdelta) & _).
    cbv zeta in Hdelta.
    destruct (trim_frame (runner (accumulate_and_step raw_elapsed m)))
      as (_ & _ & _ & _ & ->).
    exact Hdelta.
Qed.

End FrameFacts.

(** [push_time] and [tick] assign neither the configuration, nor the two
    callbacks, nor the pause flag: with callbacks that act on the caller's
    state and do not call the runner's own member functions, which are the
    callbacks of this embedding, all four are after the call what they were
    before it, for every elapsed time, and whether the step function returns
    or throws.  A step function that calls a setter of the runner it is
    called from is outside the embedding. *)
Theorem calls_keep_configuration {W : Type} (m : Machine W)
  (elapsed : nanoseconds) (now : Z) :
  let pushed := runner (snd (push_time elapsed m)) in
  let ticked := runner (snd (tick now m)) in
  (m_config pushed = m_config (runner m) /\
   m_on_update_function pushed = m_on_update_function (runner m) /\
   m_on_error_function pushed = m_on_error_function (runner m) /\
   paused pushed = paused (runner m)) /\
  (m_config ticked = m_config (runner m) /\
   m_on_update_function ticked = m_on_update_function (runner m) /\
   m_on_error_function ticked = m_on_error_function (runner m) /\
   paused ticked = paused (runner m)).
Proof.
  cbv zeta. unfold push_time, paused. split.
  - destruct (advance_setup elapsed m) as (Hfn & Hcfg & _ & Hp & Herr).
    repeat split; assumption.
  - destruct (m_paused (runner m)) eqn:Hp.
    + rewrite tick_paused by exact Hp. cbn. rewrite Hp. repeat split.
    + rewrite tick_running by exact Hp.
      destruct (advance_setup (tick_elapsed now (runner m))
                  (with_runner (with_last now (runner m)) m))
        as (Hfn & Hcfg & _ & Hp' & Herr).
      cbn in Hfn, Hcfg, Hp', Herr. rewrite Hp in Hp'.
      repeat split; assumption.
Qed.

(** The clock reference: [push_time] never touches it, and [tick] always
    leaves it at the time of the call, paused or not. *)
Theorem clock_reference {W : Type} (m : Machine W) (elapsed : nanoseconds)
  (now : Z) :
  m_last (runner (snd (push_time elapsed m))) = m_last (runner m) /\
  m_last (runner (snd (tick now m))) = now.
Proof.
  unfold push_time. split; [apply advance_setup|].
  destruct (m_paused (runner m)) eqn:Hp.
  - rewrite tick_paused by exact Hp. reflexivity.
  - rewrite tick_running by exact Hp.
    destruct (advance_setup (tick_elapsed now (runner m))
                (with_runner (with_last now (runner m)) m))
      as (_ & _ & Hlast & _).
    exact Hlast.
Qed.

(** [last_delta] is the raw input of the last call, before the clamp and the
    scaling, even when it was above [safety_max_delta]; on a paused runner
    it is zero. *)
Theorem last_delta_is_raw_input {W : Type} (m : Machine W)
  (elapsed : nanoseconds) (now : Z) :
  last_delta (runner (snd (push_time elapsed m)))
  = (if paused (runner m) then 0 else elapsed) /\
  last_delta (runner (snd (tick now m)))
  = (if paused (runner m) then 0 else tick_elapsed now (runner m)).
Proof.
  unfold push_time, last_delta, paused. split; [apply advance_last_delta|].
  destruct (m_paused (runner m)) eqn:Hp.
  - rewrite tick_paused by exact Hp. reflexivity.
  - rewrite tick_running by exact Hp.
    rewrite advance_last_delta. cbn. now rewrite Hp.
Qed.

(** ** How many steps a call takes *)

Lemma drain_nothing_due fuel c steps acc :
  acc < Config.step c -> drain fuel c steps acc = (steps, acc).
Proof.
  intros Hlt. destruct fuel as [|fuel]; [reflexivity|]. cbn [drain].
  now rewrite (proj2 (Z.leb_gt _ _) Hlt).
Qed.

Section QuotientFacts.

Context {W : Type}.
Implicit Types (m : Machine W) (r : FixedTimestepRunner W).

Lemma advance_capped_quotient raw_elapsed m :
  m_paused (runner m) = false ->
  0 < Config.step (m_config (runner m)) ->
  Int64.in_range
    (m_accumulator (runner m)
     + scaled_elapsed (m_config (runner m)) raw_elapsed) ->
  let c := m_config (runner m) in
  let due := m_accumulator (runner m) + scaled_elapsed c raw_elapsed in
  let r' := runner (snd (advance raw_elapsed m)) in
  Z.of_N (m_last_steps r')
  = Z.min (Z.of_N (Config.safety_max_substeps c))
          (Z.max 0 (due / Config.step c)) /\
  (0 <= due -> due / Config.step c < Z.of_N (Config.safety_max_substeps c) ->
   leftover raw_elapsed m = due mod Config.step c /\
   m_accumulator r' = Z.min (due mod Config.step c) (max_acc c)).
Proof.
  intros Hp Hstep Hsum. cbv zeta.
  destruct (advance_running_balance raw_elapsed m Hp Hstep Hsum)
    as (Hleft & Hacc & Hnn & Hexit).
  cbv zeta in Hleft, Hacc, Hnn, Hexit.
  destruct (advance_log raw_elapsed m) as (Hcap & _). cbv zeta in Hcap.
  destruct (advance_running_numbers raw_elapsed m Hp) as (Hn & _).
  cbv zeta in Hn. unfold Int64.add in Hn. rewrite (wrap64_id _ Hsum) in Hn.
  set (c := m_config (runner m)) in *.
  set (due := m_accumulator (runner m) + scaled_elapsed c raw_elapsed) in *.
  set (k := m_last_steps (runner (snd (advance raw_elapsed m)))) in *.
  assert (Hk : Z.of_N k
               = Z.min (Z.of_N (Config.safety_max_substeps c))
                       (Z.max 0 (due / Config.step c))).
  { destruct (Z.lt_ge_cases due (Config.step c)) as [Hlt|Hge].
    - rewrite drain_nothing_due in Hn by exact Hlt. cbn [fst] in Hn.
      rewrite Hn.
      assert (Hq : due / Config.step c <= 0).
      { destruct (Z.lt_ge_cases due 0) as [Hneg|Hpos].
        - pose proof (Z.div_lt_upper_bound due (Config.step c) 0 Hstep
                        ltac:(lia)). lia.
        - rewrite Z.div_small by lia. lia. }
      revert Hq. generalize (due / Config.step c). lia.
    - specialize (Hnn ltac:(lia)).
      destruct (N.lt_ge_cases k (Config.safety_max_substeps c))
        as [Hlt|Hcapped].
      + specialize (Hexit Hlt).
        assert (due / Config.step c = Z.of_N k).
        { symmetry. apply (Z.div_unique_pos due (Config.step c) (Z.of_N k)
                             (due - Z.of_N k * Config.step c)); lia. }
        rewrite H. lia.
      + assert (Hmax : Config.safety_max_substeps c = k) by lia.
        assert (Hq : Z.of_N k <= due / Config.step c).
        { apply Z.div_le_lower_bound; lia. }
        rewrite Hmax. revert Hq. generalize (due / Config.step c). lia. }
  split; [exact Hk|].
  intros Hdue Hbelow.
  assert (Hq0 : 0 <= due / Config.step c) by (apply Z.div_pos; lia).
  assert (Hq : due / Config.step c = Z.of_N k).
  { revert Hk Hbelow Hq0. generalize (due / Config.step c). lia. }
  assert (Hmod : due - Z.of_N k * Config.step c = due mod Config.step c).
  { rewrite Z.mod_eq by lia. rewrite Hq. lia. }
  rewrite Hleft, Hacc, Hmod. split; reflexivity.
Qed.

End QuotientFacts.

(** The step loop divides: on a running runner with a positive step, when
    the sum of accumulator and scaled elapsed time does not overflow, the
    number of steps is the quotient of that sum by the step, capped by
    [safety_max_substeps] (and zero for a negative sum); below the cap the
    loop leaves the remainder. *)
Theorem step_count_is_capped_quotient {W : Type} (m : Machine W)
  (elapsed : nanoseconds) :
  paused (runner m) = false ->
  0 < step (runner m) ->
  Int64.in_range
    (accumulator (runner m) + scaled_elapsed (m_config (runner m)) elapsed) ->
  let due := accumulator (runner m)
             + scaled_elapsed (m_config (runner m)) elapsed in
  let m' := snd (push_time elapsed m) in
  Z.of_N (last_steps (runner m'))
  = Z.min (Z.of_N (max_substeps (runner m)))
          (Z.max 0 (due / step (runner m))) /\
  (0 <= due -> due / step (runner m) < Z.of_N (max_substeps (runner m)) ->
   leftover elapsed m = due mod step (runner m)).
Proof.
  intros Hp Hstep Hsum. cbv zeta.
  destruct (advance_capped_quotient elapsed m Hp Hstep Hsum) as (Hk & Hrem).
  split; [exact Hk|]. intros Hdue Hbelow. now apply Hrem.
Qed.

Lemma step_count_is_capped_quotient_witness :
  paused (runner capped_machine) = false /\
  0 < step (runner capped_machine) /\
  Z.of_N (last_steps (runner (snd (push_time (ms 1000) capped_machine))))
  = Z.min 2 (Z.max 0 (ms 1000 / ms 100)).
Proof.
  split; [reflexivity|]. split; [reflexivity|].
  assert (Hsum : Int64.in_range
            (accumulator (runner capped_machine)
             + scaled_elapsed (m_config (runner capped_machine)) (ms 1000)))
    by (vm_compute; split; discriminate).
  pose proof (step_count_is_capped_quotient capped_machine (ms 1000)
                eq_refl eq_refl Hsum) as H.
  cbv zeta in H. destruct H as (Hk & _). rewrite Hk. reflexivity.
Defined.

(** ** The calls of the step loop *)

Section UserSide.

Context {W : Type}.
Implicit Types (m : Machine W) (r : FixedTimestepRunner W).

Lemma same_user_side_refl m : same_user_side m m.
Proof. repeat split. Qed.

Lemma same_user_side_sym m1 m2 : same_user_side m1 m2 -> same_user_side m2 m1.
Proof. unfold same_user_side. intuition congruence. Qed.

Lemma same_user_side_trans m1 m2 m3 :
  same_user_side m1 m2 -> same_user_side m2 m3 -> same_user_side m1 m3.
Proof. unfold same_user_side. intuition congruence. Qed.

(** What an iteration calls does not depend on the accumulator, the flag or
    the telemetry. *)
Lemma step_once_same_user_side m m' :
  same_user_side m m' -> same_user_side (step_once m) (step_once m').
Proof.
  intros (Hfn & Herr & Hstep & Hw & Hc).
  unfold same_user_side, step_once, call_step. cbn.
  rewrite Hfn, Hstep, Hw, Hc.
  destruct (m_on_update_function (runner m)) as [fn|] eqn:Efn; cbn;
    [|repeat split; congruence].
  destruct (fn _ _) as [w [|]]; cbn; [repeat split; congruence|].
  rewrite Herr.
  destruct (m_on_error_function (runner m)) eqn:Eerr; cbn;
    repeat split; congruence.
Qed.

Lemma iter_same_user_side k m m' :
  same_user_side m m' ->
  same_user_side (Nat.iter k step_once m) (Nat.iter k step_once m').
Proof.
  intros H. induction k as [|k IH]; [exact H|].
  cbn. now apply step_once_same_user_side.
Qed.

Lemma step_loop_steps_mono fuel steps m :
  (steps <= fst (step_loop fuel steps m))%N.
Proof.
  pose proof (step_loop_spec fuel steps m) as H.
  pose proof (drain_steps_mono fuel (m_config (runner m)) steps
                (m_accumulator (runner m))) as Hmono.
  destruct (step_loop fuel steps m) as [steps' m'].
  destruct H as (Hnum & _). rewrite <- Hnum in Hmono. exact Hmono.
Qed.

(** The loop is its body, iterated as many times as it counts. *)
Lemma step_loop_iter fuel : forall steps m,
  snd (step_loop fuel steps m)
  = Nat.iter (N.to_nat (fst (step_loop fuel steps m) - steps)) step_once m.
Proof.
  induction fuel as [|fuel IH]; intros steps m; cbn [step_loop].
  - cbn [fst snd]. rewrite N.sub_diag. reflexivity.
  - destruct (step_due steps (runner m)).
    + rewrite IH.
      pose proof (step_loop_steps_mono fuel (steps + 1)%N (step_once m)).
      replace (N.to_nat (fst (step_loop fuel (steps + 1)%N (step_once m))
                         - steps))
        with (S (N.to_nat (fst (step_loop fuel (steps + 1)%N (step_once m))
                           - (steps + 1)))) by lia.
      now rewrite Nat.iter_succ_r.
    + cbn [fst snd]. rewrite N.sub_diag. reflexivity.
Qed.

(** The calls of one call of [advance], paused or not: those of as many
    iterations of the loop body as the call counts steps. *)
Lemma advance_user_side raw_elapsed m :
  same_user_side
    (Nat.iter (N.to_nat (m_last_steps (runner (snd (advance raw_elapsed m)))))
       step_once m)
    (snd (advance raw_elapsed m)).
Proof.
  destruct (m_paused (runner m)) eqn:Hp.
  - rewrite advance_paused by exact Hp. cbn. repeat split.
  - rewrite advance_running by exact Hp.
    destruct (trim_frame (runner (accumulate_and_step raw_elapsed m)))
      as (Hsteps & _).
    cbn [runner with_runner]. rewrite Hsteps.
    apply same_user_side_trans
      with (m2 := accumulate_and_step raw_elapsed m).
    + unfold accumulate_and_step.
      set (m0 := with_runner _ m).
      pose proof (step_loop_iter
                    (N.to_nat (Config.safety_max_substeps
                                 (m_config (with_last_delta raw_elapsed
                                    (with_step_error_caught false (runner m))))))
                    0%N m0) as Hiter.
      destruct (step_loop _ 0%N m0) as [steps m'].
      cbn [fst snd] in Hiter. rewrite N.sub_0_r in Hiter.
      cbn [runner with_runner m_last_steps with_last_steps].
      apply same_user_side_trans with (m2 := m').
      * rewrite Hiter. apply iter_same_user_side. repeat split.
      * repeat split.
    + destruct (trim_same_setup (runner (accumulate_and_step raw_elapsed m)))
        as (Hfn & Hcfg & _ & _ & Herr & _).
      unfold same_user_side. cbn. rewrite Hfn, Hcfg, Herr. repeat split.
Qed.

End UserSide.

Section CallShapes.

Context {W : Type}.
Implicit Types (m : Machine W) (r : FixedTimestepRunner W).

Lemma step_once_setup m : same_setup (runner m) (runner (step_once m)).
Proof.
  destruct (call_step_spec m) as (_ & _ & _ & _ & _ & Hset).
  unfold step_once. cbn. exact Hset.
Qed.

Lemma iter_setup k m :
  same_setup (runner m) (runner (Nat.iter k step_once m)).
Proof.
  induction k as [|k IH]; [apply same_setup_refl|]. cbn.
  eapply same_setup_trans; [exact IH|apply step_once_setup].
Qed.

(** Without a step function an iteration calls nothing. *)
Lemma iter_without_step_function k m :
  has_step_function (runner m) = false ->
  same_user_side m (Nat.iter k step_once m).
Proof.
  unfold has_step_function. intros Hnone.
  induction k as [|k IH]; [apply same_user_side_refl|].
  change (Nat.iter (S k) step_once m)
    with (step_once (Nat.iter k step_once m)).
  apply same_user_side_trans with (m2 := Nat.iter k step_once m);
    [exact IH|].
  destruct IH as (Hfn & _).
  set (x := Nat.iter k step_once m) in *. clearbody x.
  unfold same_user_side, step_once, call_step. cbn.
  destruct (m_on_update_function (runner x)) as [fn|] eqn:E.
  - rewrite <- Hfn in Hnone. discriminate.
  - cbn. rewrite E. repeat split.
Qed.

(** With a step function that always returns, [k] iterations call it [k]
    times, thread the world through the calls and leave the flag alone. *)
Lemma iter_with_returning_step_function fn k m :
  m_on_update_function (runner m) = Some fn ->
  (forall dt w, snd (fn dt w) = Returned) ->
  let x := Nat.iter k step_once m in
  calls x
  = calls m ++ repeat (StepCall (Config.step (m_config (runner m))) Returned) k
  /\ world x = apply_steps fn (Config.step (m_config (runner m))) k (world m)
  /\ m_step_error_caught (runner x) = m_step_error_caught (runner m).
Proof.
  intros Hfn Hret. cbv zeta.
  induction k as [|k IH].
  - cbn. rewrite app_nil_r. repeat split.
  - destruct IH as (Hcalls & Hworld & Hflag).
    destruct (iter_setup k m) as (Hfn' & Hcfg & _).
    change (Nat.iter (S k) step_once m)
      with (step_once (Nat.iter k step_once m)).
    set (x := Nat.iter k step_once m) in *. clearbody x.
    unfold step_once, call_step. rewrite Hfn', Hfn, Hcfg.
    specialize (Hret (Config.step (m_config (runner m))) (world x)).
    change (apply_steps fn (Config.step (m_config (runner m))) (S k)
              (world m))
      with (fst (fn (Config.step (m_config (runner m)))
                   (apply_steps fn (Config.step (m_config (runner m))) k
                      (world m)))).
    rewrite <- Hworld.
    destruct (fn _ (world x)) as [w o] eqn:Ecall. cbn in Hret. subst o.
    cbn. rewrite Hcalls, Hflag, <- app_assoc, repeat_cons. repeat split.
Qed.

End CallShapes.

Lemma paired_app (h : bool) (l1 l2 : list call) :
  paired h l1 = true -> paired h l2 = true -> paired h (l1 ++ l2) = true.
Proof.
  remember (length l1) as n eqn:Hn.
  assert (Hlen : (length l1 <= n)%nat) by lia. clear Hn.
  revert l1 Hlen. induction n as [|n IH]; intros l1 Hlen H1 H2.
  - destruct l1; [exact H2|cbn in Hlen; lia].
  - destruct l1 as [|[dt [|]|] l1]; cbn in *; try discriminate.
    + exact H2.
    + apply IH; [lia|assumption|assumption].
    + destruct h.
      * destruct l1 as [|[dt' o|] l1]; try discriminate.
        cbn in *. apply IH; [lia|assumption|assumption].
      * apply IH; [lia|assumption|assumption].
Qed.

Section Pairing.

Context {W : Type}.
Implicit Types (m : Machine W) (r : FixedTimestepRunner W).

Lemma call_step_paired m :
  exists l,
    calls (call_step m) = calls m ++ l /\
    paired (has_error_function (runner m)) l = true.
Proof.
  unfold call_step, has_error_function.
  destruct (m_on_update_function (runner m)) as [fn|].
  - destruct (fn _ _) as [w [|]].
    + eexists. split; [reflexivity|]. reflexivity.
    + cbn. destruct (m_on_error_function (runner m)).
      * eexists. split; [reflexivity|]. reflexivity.
      * eexists. split; [reflexivity|]. reflexivity.
  - exists []. now rewrite app_nil_r.
Qed.

Lemma iter_paired k m :
  exists l,
    calls (Nat.iter k step_once m) = calls m ++ l /\
    paired (has_error_function (runner m)) l = true.
Proof.
  induction k as [|k IH].
  - exists []. now rewrite app_nil_r.
  - destruct IH as (l & Hl & Hp).
    change (Nat.iter (S k) step_once m)
      with (step_once (Nat.iter k step_once m)).
    set (x := Nat.iter k step_once m) in *.
    destruct (call_step_paired x) as (l1 & Hl1 & Hp1).
    destruct (iter_setup k m) as (_ & _ & _ & _ & Herr & _). fold x in Herr.
    clearbody x.
    exists (l ++ l1). split.
    + unfold step_once. cbn. rewrite Hl1, Hl. now rewrite app_assoc.
    + apply paired_app; [exact Hp|].
      unfold has_error_function in *. now rewrite <- Herr.
Qed.

End Pairing.

(** With no step function the steps are still counted and paid for, and
    nothing is called: the call log and the world stay as they were, the
    error flag is clear after a call on a running runner, and the step count
    and the accumulator are those of the same call with any step function
    set. *)
Theorem no_step_function_no_calls {W : Type} (m : Machine W)
  (elapsed : nanoseconds) (fn : option (OnStepFunction W)) :
  has_step_function (runner m) = false ->
  let m' := snd (push_time elapsed m) in
  let other := snd (push_time elapsed (on_runner (set_step_function fn) m)) in
  calls m' = calls m /\
  world m' = world m /\
  (paused (runner m) = false -> step_error_caught (runner m') = false) /\
  last_steps (runner m') = last_steps (runner other) /\
  accumulator (runner m') = accumulator (runner other).
Proof.
  unfold push_time, paused, step_error_caught, last_steps, accumulator.
  intros Hnone. cbv zeta.
  destruct (advance_user_side elapsed m) as (_ & _ & _ & Hw & Hc).
  destruct (iter_without_step_function
              (N.to_nat (m_last_steps (runner (snd (advance elapsed m))))) m
              Hnone) as (_ & _ & _ & Hw' & Hc').
  assert (Hcalls : calls (snd (advance elapsed m)) = calls m) by congruence.
  split; [exact Hcalls|]. split; [congruence|]. split.
  - intros Hp. destruct (advance_running_flag elapsed m Hp) as (-> & _).
    unfold calls_since. rewrite Hcalls, skipn_all. reflexivity.
  - destruct (m_paused (runner m)) eqn:Hp.
    + rewrite !advance_paused by exact Hp. split; reflexivity.
    + destruct (advance_running_numbers elapsed m Hp) as (Hn & Ha & _).
      destruct (advance_running_numbers elapsed
                  (on_runner (set_step_function fn) m) Hp) as (Hn' & Ha' & _).
      cbn in Hn', Ha'. split; congruence.
Qed.

Lemma no_step_function_no_calls_witness :
  has_step_function (runner default_machine) = false /\
  calls (snd (push_time (ms 100) default_machine)) = [] /\
  last_steps (runner (snd (push_time (ms 100) default_machine))) = 5%N.
Proof.
  split; [reflexivity|].
  pose proof (no_step_function_no_calls default_machine (ms 100)
                (Some always_returns) eq_refl) as H.
  cbv zeta in H. destruct H as (Hcalls & _ & _ & Hsteps & _).
  split; [exact Hcalls|]. rewrite Hsteps. reflexivity.
Defined.

Lemma returns_do_not_throw (dt : nanoseconds) (k : nat) :
  existsb is_throwing_call (repeat (StepCall dt Returned) k) = false.
Proof. induction k as [|k IH]; [reflexivity|exact IH]. Qed.

(** A step function that always returns is called once per counted step, in
    a row and with the configured step, on the world the previous call left;
    the error function is never called and the flag is clear after a call on
    a running runner. *)
Theorem returning_step_function_runs_each_step {W : Type} (m : Machine W)
  (elapsed : nanoseconds) (fn : OnStepFunction W) :
  m_on_update_function (runner m) = Some fn ->
  (forall dt w, snd (fn dt w) = Returned) ->
  let m' := snd (push_time elapsed m) in
  let n := N.to_nat (last_steps (runner m')) in
  calls m' = calls m ++ repeat (StepCall (step (runner m)) Returned) n /\
  world m' = apply_steps fn (step (runner m)) n (world m) /\
  (paused (runner m) = false -> step_error_caught (runner m') = false).
Proof.
  unfold push_time, paused, step_error_caught, last_steps, step.
  intros Hfn Hret. cbv zeta.
  destruct (advance_user_side elapsed m) as (_ & _ & _ & Hw & Hc).
  destruct (iter_with_returning_step_function fn
              (N.to_nat (m_last_steps (runner (snd (advance elapsed m))))) m
              Hfn Hret) as (Hc' & Hw' & _).
  cbv zeta in Hc', Hw'.
  assert (Hcalls : calls (snd (advance elapsed m))
                   = calls m
                     ++ repeat (StepCall (Config.step (m_config (runner m)))
                                  Returned)
                          (N.to_nat
                             (m_last_steps (runner (snd (advance elapsed m))))))
    by congruence.
  split; [exact Hcalls|]. split; [congruence|].
  intros Hp. destruct (advance_running_flag elapsed m Hp) as (-> & _).
  rewrite (calls_since_app _ _ _ Hcalls). apply returns_do_not_throw.
Qed.

Lemma returning_step_function_runs_each_step_witness :
  m_on_update_function (runner capped_machine) = Some always_returns /\
  (forall dt w, snd (always_returns dt w) = Returned) /\
  world (snd (push_time (ms 1000) capped_machine)) = 2%nat /\
  calls (snd (push_time (ms 1000) capped_machine))
  = [StepCall (ms 100) Returned; StepCall (ms 100) Returned].
Proof.
  assert (Hret : forall dt w, snd (always_returns dt w) = Returned)
    by reflexivity.
  split; [reflexivity|]. split; [exact Hret|].
  pose proof (returning_step_function_runs_each_step capped_machine (ms 1000)
                always_returns eq_refl Hret) as H.
  cbv zeta in H. destruct H as (Hcalls & Hworld & _).
  split; [rewrite Hworld; reflexivity|rewrite Hcalls; reflexivity].
Defined.

(** In the call log of every call, each call of the step function carries
    the configured step, and the error function is called right after each
    throwing call of the step function, before the next step, and nowhere
    else. *)
Theorem error_function_follows_each_failure {W : Type} (m : Machine W)
  (elapsed : nanoseconds) :
  let log := calls_since m (snd (push_time elapsed m)) in
  paired (has_error_function (runner m)) log = true /\
  Forall (fun c => match c with
                   | StepCall dt _ => dt = step (runner m)
                   | ErrorCall => True
                   end) log.
Proof.
  unfold push_time, step. cbv zeta. split.
  - destruct (advance_user_side elapsed m) as (_ & _ & _ & _ & Hc).
    destruct (iter_paired
                (N.to_nat (m_last_steps (runner (snd (advance elapsed m))))) m)
      as (l & Hl & Hp).
    rewrite Hl in Hc. now rewrite (calls_since_app _ _ _ Hc).
  - destruct (advance_log elapsed m) as (_ & l & Hl & _ & _ & Hall).
    now rewrite (calls_since_app _ _ _ Hl).
Qed.

(** ** Feeding time in pieces *)

Lemma scaled_elapsed_at_unit_scale (c : Config.t) (e : nanoseconds) :
  Config.time_scale c = Double.one -> e <= Config.safety_max_delta c ->
  scaled_elapsed c e = e.
Proof.
  intros Hts He. unfold scaled_elapsed, scale_delta.
  rewrite Hts, clamp_delta_below by exact He. reflexivity.
Qed.

Section Additivity.

Context {W : Type}.
Implicit Types (m : Machine W) (r : FixedTimestepRunner W).

(** One call at a time scale of one that neither the clamp, nor the cap, nor
    the trim cuts short: quotient and remainder. *)
Lemma advance_uncut e m :
  m_paused (runner m) = false ->
  0 < Config.step (m_config (runner m)) ->
  Config.time_scale (m_config (runner m)) = Double.one ->
  0 <= e <= Config.safety_max_delta (m_config (runner m)) ->
  0 <= m_accumulator (runner m) ->
  Int64.in_range (m_accumulator (runner m) + e) ->
  (m_accumulator (runner m) + e) / Config.step (m_config (runner m))
  < Z.of_N (Config.safety_max_substeps (m_config (runner m))) ->
  Config.step (m_config (runner m)) <= max_acc (m_config (runner m)) ->
  let r' := runner (snd (advance e m)) in
  Z.of_N (m_last_steps r')
  = (m_accumulator (runner m) + e) / Config.step (m_config (runner m)) /\
  m_accumulator r'
  = (m_accumulator (runner m) + e) mod Config.step (m_config (runner m)).
Proof.
  intros Hp Hstep Hts He Hacc Hrange Hcap Hceil. cbv zeta.
  pose proof (scaled_elapsed_at_unit_scale _ e Hts (proj2 He)) as Hscaled.
  destruct (advance_capped_quotient e m Hp Hstep) as (Hk & Hrem).
  { now rewrite Hscaled. }
  cbv zeta in Hk, Hrem. rewrite Hscaled in Hk, Hrem.
  destruct (Hrem ltac:(lia) Hcap) as (_ & Ha).
  pose proof (Z.mod_pos_bound (m_accumulator (runner m) + e)
                (Config.step (m_config (runner m))) Hstep) as Hmod.
  pose proof (Z.div_pos (m_accumulator (runner m) + e)
                (Config.step (m_config (runner m))) ltac:(lia) Hstep) as Hq.
  split; [|lia].
  revert Hk Hcap Hq.
  generalize ((m_accumulator (runner m) + e)
              / Config.step (m_config (runner m))). lia.
Qed.

End Additivity.

(** Feeding time in two pieces is feeding it at once.  At a time scale of
    one, when the whole stays within the clamp and the cap and the ceiling of
    the trim is at least one step, [push_time a] followed by [push_time b]
    takes as many steps in total as [push_time (a + b)], leaves the same
    accumulator, and makes the same calls with the same effect on the
    world. *)
Theorem push_time_is_additive {W : Type} (m : Machine W) (a b : nanoseconds) :
  paused (runner m) = false ->
  0 < step (runner m) ->
  time_scale (runner m) = Double.one ->
  0 <= a -> 0 <= b -> a + b <= max_delta (runner m) ->
  0 <= accumulator (runner m) ->
  Int64.in_range (accumulator (runner m) + (a + b)) ->
  (accumulator (runner m) + (a + b)) / step (runner m)
  < Z.of_N (max_substeps (runner m)) ->
  step (runner m) <= max_acc (m_config (runner m)) ->
  let first := snd (push_time a m) in
  let second := snd (push_time b first) in
  let whole := snd (push_time (a + b) m) in
  (last_steps (runner first) + last_steps (runner second)
   = last_steps (runner whole))%N /\
  accumulator (runner second) = accumulator (runner whole) /\
  calls second = calls whole /\
  world second = world whole.
Proof.
  unfold paused, step, time_scale, max_delta, accumulator, max_substeps,
    last_steps, push_time.
  intros Hp Hstep Hts Ha Hb Hab Hacc Hrange Hcap Hceil. cbv zeta.
  set (c := m_config (runner m)) in *.
  set (s := Config.step c) in *.
  set (acc := m_accumulator (runner m)) in *.
  assert (Hr : Int64.min_signed <= 0 /\ acc + (a + b) <= Int64.max_signed).
  { split; [unfold Int64.min_signed; lia|apply Hrange]. }
  (* the whole *)
  destruct (advance_uncut (a + b) m Hp Hstep Hts ltac:(fold c; lia) Hacc
              Hrange Hcap Hceil) as (Hkw & Haw).
  cbv zeta in Hkw, Haw. fold c s acc in Hkw, Haw.
  (* the first piece *)
  assert (Hq1 : (acc + a) / s <= (acc + (a + b)) / s)
    by (apply Z.div_le_mono; lia).
  destruct (advance_uncut a m Hp Hstep Hts ltac:(fold c; lia) Hacc
              ltac:(fold acc; split; lia) ltac:(fold c s acc; lia) Hceil)
    as (Hk1 & Ha1).
  cbv zeta in Hk1, Ha1. fold c s acc in Hk1, Ha1.
  destruct (advance_setup a m) as (_ & Hcfg1 & _ & Hp1 & _).
  cbv zeta in Hcfg1, Hp1. fold c in Hcfg1. rewrite Hp in Hp1.
  set (m1 := snd (advance a m)) in *.
  pose proof (Z.mod_pos_bound (acc + a) s Hstep) as Hmod1.
  pose proof (Z.div_mod (acc + a) s ltac:(lia)) as Hdm1.
  (* the second piece *)
  assert (Hq2 : (m_accumulator (runner m1) + b) / s <= (acc + (a + b)) / s).
  { apply Z.div_le_mono; [lia|]. rewrite Ha1.
    pose proof (Z.div_pos (acc + a) s ltac:(lia) Hstep). nia. }
  destruct (advance_uncut b m1 Hp1) as (Hk2 & Ha2);
    rewrite ?Hcfg1; fold s; try assumption; try lia.
  { rewrite Ha1. pose proof (Z.div_pos (acc + a) s ltac:(lia) Hstep).
    split; [lia|nia]. }
  cbv zeta in Hk2, Ha2. rewrite Hcfg1 in Hk2, Ha2. fold s in Hk2, Ha2.
  set (m2 := snd (advance b m1)) in *.
  set (mw := snd (advance (a + b) m)) in *.
  pose proof (Z.mod_pos_bound (m_accumulator (runner m1) + b) s Hstep)
    as Hmod2.
  pose proof (Z.div_mod (m_accumulator (runner m1) + b) s ltac:(lia)) as Hdm2.
  rewrite Ha1 in Hdm2, Hmod2, Hk2, Ha2.
  set (q1 := (acc + a) / s) in *. set (r1 := (acc + a) mod s) in *.
  set (q2 := (r1 + b) / s) in *. set (r2 := (r1 + b) mod s) in *.
  assert (Hwhole : acc + (a + b) = s * (q1 + q2) + r2) by lia.
  assert (Hqw : (acc + (a + b)) / s = q1 + q2).
  { symmetry. apply (Z.div_unique_pos _ s (q1 + q2) r2); [lia|exact Hwhole]. }
  assert (Hrw : (acc + (a + b)) mod s = r2).
  { symmetry. apply (Z.mod_unique_pos _ s (q1 + q2) r2); [lia|exact Hwhole]. }
  assert (Hsteps : (m_last_steps (runner m1) + m_last_steps (runner m2)
                    = m_last_steps (runner mw))%N) by lia.
  split; [exact Hsteps|]. split; [congruence|].
  (* the calls *)
  pose proof (advance_user_side a m) as S1. fold m1 in S1.
  pose proof (advance_user_side b m1) as S2. fold m2 in S2.
  pose proof (advance_user_side (a + b) m) as Sw. fold mw in Sw.
  rewrite <- Hsteps, N2Nat.inj_add, Nat.add_comm, Nat.iter_add in Sw.
  pose proof (iter_same_user_side (N.to_nat (m_last_steps (runner m2))) _ _ S1)
    as S12.
  pose proof (same_user_side_trans _ _ _
                (same_user_side_sym _ _ Sw)
                (same_user_side_trans _ _ _ S12 S2)) as (_ & _ & _ & Hw & Hc).
  split; assumption.
Qed.

Lemma push_time_is_additive_witness :
  let m := fresh (Some always_returns) (config_100ms (ms 250) 8%N) in
  paused (runner m) = false /\
  0 < step (runner m) /\
  time_scale (runner m) = Double.one /\
  ms 120 + ms 90 <= max_delta (runner m) /\
  last_steps (runner (snd (push_time (ms 120 + ms 90) m))) = 2%N /\
  accumulator (runner (snd (push_time (ms 90) (snd (push_time (ms 120) m)))))
  = ms 10 /\
  world (snd (push_time (ms 90) (snd (push_time (ms 120) m)))) = 2%nat.
Proof.
  set (m := fresh (Some always_returns) (config_100ms (ms 250) 8%N)).
  cbv zeta.
  assert (Hab : ms 120 + ms 90 <= max_delta (runner m))
    by (vm_compute; discriminate).
  split; [reflexivity|]. split; [reflexivity|]. split; [reflexivity|].
  split; [exact Hab|]. split; [reflexivity|].
  assert (H : 0 <= ms 120 /\ 0 <= ms 90 /\ 0 <= accumulator (runner m))
    by (vm_compute; repeat split; discriminate).
  destruct H as (Ha & Hb & Hacc).
  pose proof (push_time_is_additive m (ms 120) (ms 90) eq_refl eq_refl
                eq_refl Ha Hb Hab Hacc) as H.
  destruct H as (_ & Hsame & _ & Hworld).
  - vm_compute. split; discriminate.
  - vm_compute. reflexivity.
  - vm_compute. discriminate.
  - cbv zeta in Hsame, Hworld.
    split; [rewrite Hsame|rewrite Hworld]; reflexivity.
Defined.

(** ** The substep cap set through its setter *)



(** ** Pause and resume *)

Section PauseFacts.

Context {W : Type}.
Implicit Types (m : Machine W) (r : FixedTimestepRunner W).

(** One [tick] or [push_time] on a paused runner. *)
Lemma feed_while_paused (o : operation) m :
  m_paused (runner m) = true -> feeds_time o = true ->
  m_paused (runner (perform o m)) = true /\
  m_accumulator (runner (perform o m)) = m_accumulator (runner m) /\
  m_config (runner (perform o m)) = m_config (runner m) /\
  calls (perform o m) = calls m /\
  world (perform o m) = world m.
Proof.
  intros Hp Hfeed. destruct o; try discriminate; cbn [perform].
  - rewrite tick_paused by exact Hp. cbn. rewrite Hp. repeat split.
  - unfold push_time. rewrite advance_paused by exact Hp. cbn. rewrite Hp.
    repeat split.
Qed.

End PauseFacts.

(** Pausing loses nothing.  Through any sequence of [tick] and [push_time]
    calls a paused runner stays paused, keeps its accumulator and its alpha
    and calls nothing; after [resume] the accumulator is what it was when
    the runner was paused. *)
Theorem pause_keeps_progress {W : Type} (m : Machine W)
  (ops : list operation) :
  paused (runner m) = true ->
  forallb feeds_time ops = true ->
  let m' := perform_all ops m in
  paused (runner m') = true /\
  accumulator (runner m') = accumulator (runner m) /\
  alpha (runner m') = alpha (runner m) /\
  calls m' = calls m /\
  world m' = world m /\
  paused (resume (runner m')) = false /\
  accumulator (resume (runner m')) = accumulator (runner m).
Proof.
  unfold paused, accumulator, alpha, perform_all. cbv zeta.
  revert m. induction ops as [|o ops IH]; intros m Hp Hfeed.
  - cbn. repeat split. exact Hp.
  - cbn [forallb] in Hfeed. apply andb_prop in Hfeed as [Ho Hops].
    destruct (feed_while_paused o m Hp Ho) as (Hp' & Hacc & Hcfg & Hc & Hw).
    cbn [fold_left].
    destruct (IH (perform o m) Hp' Hops)
      as (IHp & IHacc & IHalpha & IHc & IHw & IHr & IHracc).
    rewrite Hacc, Hcfg in IHalpha.
    repeat split; try congruence.
Qed.

Lemma pause_keeps_progress_witness :
  paused (runner paused_machine) = true /\
  accumulator
    (resume (runner (perform_all [PushTime (ms 400); Tick 77; PushTime (ms 9)]
                       paused_machine)))
  = ms 50 /\
  calls (perform_all [PushTime (ms 400); Tick 77; PushTime (ms 9)]
           paused_machine)
  = calls paused_machine.
Proof.
  split; [reflexivity|].
  pose proof (pause_keeps_progress paused_machine
                [PushTime (ms 400); Tick 77; PushTime (ms 9)]
                eq_refl eq_refl) as H.
  cbv zeta in H. destruct H as (_ & _ & _ & Hc & _ & _ & Hacc).
  split; [rewrite Hacc; reflexivity|exact Hc].
Defined.

(** ** Reset *)

(** [reset] forgets the backlog: after it, with either argument, the runner
    is running, and the steps taken, the accumulator and the alpha of the
    next [push_time] are those of any other runner with the same
    configuration that was just reset, whatever either did before. *)
Theorem reset_forgets_backlog {W : Type} (m1 m2 : Machine W)
  (s1 s2 : bool) (t1 t2 : Z) (elapsed : nanoseconds) :
  m_config (runner m1) = m_config (runner m2) ->
  let a1 := push_time elapsed (on_runner (reset s1 t1) m1) in
  let a2 := push_time elapsed (on_runner (reset s2 t2) m2) in
  last_steps (runner (snd a1)) = last_steps (runner (snd a2)) /\
  accumulator (runner (snd a1)) = accumulator (runner (snd a2)) /\
  fst a1 = fst a2.
Proof.
  unfold push_time, last_steps, accumulator. intros Hcfg. cbv zeta.
  rewrite !advance_returns_alpha. unfold alpha.
  assert (Hrun : forall s t (m : Machine W),
            m_paused (runner (on_runner (reset s t) m)) = false /\
            m_accumulator (runner (on_runner (reset s t) m)) = 0 /\
            m_config (runner (on_runner (reset s t) m)) = m_config (runner m)).
  { intros s t m. cbn. destruct (reset_frame s t (runner m))
      as (_ & Ha & _ & _ & Hp & Hc). repeat split; assumption. }
  destruct (Hrun s1 t1 m1) as (Hp1 & Ha1 & Hc1).
  destruct (Hrun s2 t2 m2) as (Hp2 & Ha2 & Hc2).
  destruct (advance_running_numbers elapsed _ Hp1) as (Hn1 & Hacc1 & Hcfg1).
  destruct (advance_running_numbers elapsed _ Hp2) as (Hn2 & Hacc2 & Hcfg2).
  cbv zeta in Hn1, Hacc1, Hcfg1, Hn2, Hacc2, Hcfg2.
  rewrite Ha1, Hc1, Hcfg in Hn1, Hacc1. rewrite Hc1, Hcfg in Hcfg1.
  rewrite Ha2, Hc2 in Hn2, Hacc2. rewrite Hc2 in Hcfg2.
  rewrite Hn1, Hn2, Hacc1, Hacc2, Hcfg1, Hcfg2. repeat split.
Qed.

Lemma reset_forgets_backlog_witness :
  m_config (runner (snd (push_time (ms 1000) capped_machine)))
  = m_config (runner capped_machine) /\
  accumulator (runner (snd (push_time (ms 1000) capped_machine))) = ms 300 /\
  accumulator
    (runner (snd (push_time (ms 150)
                    (on_runner (reset false 0)
                       (snd (push_time (ms 1000) capped_machine))))))
  = ms 50.
Proof.
  assert (Hcfg : m_config (runner (snd (push_time (ms 1000) capped_machine)))
                 = m_config (runner capped_machine)) by reflexivity.
  split; [exact Hcfg|]. split; [reflexivity|].
  pose proof (reset_forgets_backlog
                (snd (push_time (ms 1000) capped_machine)) capped_machine
                false true 0 5 (ms 150) Hcfg) as H.
  cbv zeta in H. destruct H as (_ & Hacc & _).
  rewrite Hacc. reflexivity.
Defined.

(** ** The clock *)

(** [tick] measures from the previous [tick], wherever that one found the
    runner: after a [tick] at [t1], paused or not, the next [tick] of the
    resumed runner feeds the time since [t1], so that time spent paused is
    not caught up.  A reading of exactly zero counts as no reading: the next
    [tick] then feeds nothing.  The same holds for the time of
    construction. *)
Theorem tick_measures_from_last_tick {W : Type} (m : Machine W) (t1 t2 : Z)
  (fn : option (OnStepFunction W)) (c : Config.t) (w : W) :
  let resumed := on_runner resume (snd (tick t1 m)) in
  let built := mkMachine (make_runner fn c t1) w [] in
  last_delta (runner (snd (tick t2 resumed)))
  = (if t1 =? 0 then 0 else Int64.sub t2 t1) /\
  last_delta (runner (snd (tick t2 built)))
  = (if t1 =? 0 then 0 else Int64.sub t2 t1) /\
  last_delta (runner (snd (tick t2 (mkMachine default_runner w [])))) = 0.
Proof.
  unfold last_delta. cbv zeta.
  assert (Hfeed : forall (t : Z) (m0 : Machine W),
            m_paused (runner m0) = false -> m_last (runner m0) = t ->
            m_last_delta (runner (snd (tick t2 m0)))
            = if t =? 0 then 0 else Int64.sub t2 t).
  { intros t m0 Hp Hlast. rewrite tick_running by exact Hp.
    rewrite advance_last_delta. cbn. rewrite Hp.
    unfold tick_elapsed. rewrite Hlast.
    destruct (t =? 0); [|reflexivity].
    unfold Int64.sub. rewrite Z.sub_diag. reflexivity. }
  split; [|split].
  - apply Hfeed; [reflexivity|]. cbn.
    destruct (m_paused (runner m)) eqn:Hp.
    + rewrite tick_paused by exact Hp. reflexivity.
    + rewrite tick_running by exact Hp.
      destruct (advance_setup (tick_elapsed t1 (runner m))
                  (with_runner (with_last t1 (runner m)) m))
        as (_ & _ & Hlast & _).
      exact Hlast.
  - apply Hfeed; reflexivity.
  - apply (Hfeed 0); reflexivity.
Qed.

(** ** The configuration under the public operations *)

Section ConfigurationFacts.

Context {W : Type}.
Implicit Types (m : Machine W) (r : FixedTimestepRunner W).

(** [tick] and [push_time] leave the configuration alone. *)
Lemma feed_keeps_config (o : operation) m :
  feeds_time o = true ->
  m_config (runner (perform o m)) = m_config (runner m).
Proof.
  intros Hfeed.
  destruct o as [start_now t|t|e|rate|s|d|n|s|p| | |fn|fn];
    try discriminate; cbn [perform].
  - destruct (m_paused (runner m)) eqn:Hp.
    + rewrite tick_paused by exact Hp. reflexivity.
    + rewrite tick_running by exact Hp.
      destruct (advance_setup (tick_elapsed t (runner m))
                  (with_runner (with_last t (runner m)) m))
        as (_ & Hcfg & _).
      exact Hcfg.
  - unfold push_time. apply advance_setup.
Qed.

Lemma set_time_scale_nonneg_finite (s : double) :
  s <> S754_nan -> s <> S754_infinity false ->
  Double.nonneg_finite (if Double.ltb s Double.zero then Double.zero else s).
Proof.
  intros Hnan Hinf.
  destruct s as [sg|[|]| |[|] mt e]; cbn; try exact I; try reflexivity;
    congruence.
Qed.

Lemma perform_keeps_well_formed (o : operation) m :
  wf_config (m_config (runner m)) -> keeps_well_formed o ->
  wf_config (m_config (runner (perform o m))).
Proof.
  intros Hwf Hok.
  destruct o as [start_now t|t|e|rate|s|d|n|s| | | | | ];
    try (rewrite feed_keeps_config by reflexivity; exact Hwf);
    cbn [perform on_runner with_runner runner]; try exact Hwf.
  - (* reset *)
    destruct (reset_frame start_now t (runner m)) as (_ & _ & _ & _ & _ & ->).
    exact Hwf.
  - (* set_hz *)
    unfold set_hz.
    destruct (Double.leb rate Double.zero) eqn:Hle; [exact Hwf|].
    destruct Hok as [Hok|Hok]; [congruence|].
    destruct Hwf as (_ & Hmax & Hts). repeat split; assumption.
  - (* set_step *)
    unfold set_step. destruct (Z.leb_spec s 0); [exact Hwf|].
    destruct Hwf as (_ & Hmax & Hts). repeat split; assumption.
  - (* set_max_delta *)
    unfold set_max_delta. destruct (Z.leb_spec d 0); [exact Hwf|].
    destruct Hwf as (Hstep & _ & Hts). repeat split; assumption.
  - (* set_time_scale *)
    destruct Hwf as (Hstep & Hmax & _). destruct Hok as (Hnan & Hinf).
    repeat split; try assumption.
    now apply set_time_scale_nonneg_finite.
Qed.

Lemma perform_keeps_overflow_multiplier (o : operation) m :
  Config.safety_max_accumulator_overflow (m_config (runner (perform o m)))
  = Config.safety_max_accumulator_overflow (m_config (runner m)).
Proof.
  destruct o as [start_now t|t|e|rate|s|d|n|s| | | | | ];
    try (rewrite feed_keeps_config by reflexivity; reflexivity);
    cbn [perform on_runner with_runner runner]; try reflexivity.
  - destruct (reset_frame start_now t (runner m)) as (_ & _ & _ & _ & _ & ->).
    reflexivity.
  - unfold set_hz. destruct (Double.leb _ _); reflexivity.
  - unfold set_step. destruct (_ <=? _); reflexivity.
  - unfold set_max_delta. destruct (_ <=? _); reflexivity.
Qed.

End ConfigurationFacts.

(** A positive step, a positive clamp and a finite, non-negative time scale
    survive every sequence of public operations in which [set_hz] is given a
    rate whose period converts to at least one nanosecond (or a rate it
    ignores) and [set_time_scale] neither a NaN nor the positive infinity:
    [set_step] and [set_max_delta] ignore what is not positive, and
    [set_time_scale] replaces what is negative by zero. *)
Theorem operations_keep_well_formed {W : Type} (m : Machine W)
  (ops : list operation) :
  wf_config (m_config (runner m)) ->
  Forall keeps_well_formed ops ->
  wf_config (m_config (runner (perform_all ops m))).
Proof.
  unfold perform_all. revert m.
  induction ops as [|o ops IH]; intros m Hwf Hok; [exact Hwf|].
  inversion Hok as [|o' ops' Ho Hops]; subst. cbn [fold_left].
  apply IH; [|exact Hops]. now apply perform_keeps_well_formed.
Qed.

Lemma operations_keep_well_formed_witness :
  let ops := [SetStep (- ms 5); SetMaxDelta 0; SetTimeScale (Double.of_Z (-2));
              PushTime (ms 30); SetStep (ms 20)] in
  wf_config (m_config (runner throwing_machine)) /\
  Forall keeps_well_formed ops /\
  wf_config (m_config (runner (perform_all ops throwing_machine))) /\
  step (runner (perform_all ops throwing_machine)) = ms 20 /\
  max_delta (runner (perform_all ops throwing_machine)) = ms 250 /\
  time_scale (runner (perform_all ops throwing_machine)) = Double.zero.
Proof.
  cbv zeta.
  assert (Hwf : wf_config (m_config (runner throwing_machine)))
    by (repeat split).
  assert (Hok : Forall (@keeps_well_formed counter)
                  [SetStep (- ms 5); SetMaxDelta 0;
                   SetTimeScale (Double.of_Z (-2));
                   PushTime (ms 30); SetStep (ms 20)]).
  { repeat constructor; discriminate. }
  split; [exact Hwf|]. split; [exact Hok|].
  split; [exact (operations_keep_well_formed throwing_machine _ Hwf Hok)|].
  split; [reflexivity|]. split; reflexivity.
Defined.

(** [set_hz] does not repeat the check of [set_step]: at two gigahertz the
    period of half a nanosecond is truncated to a step of zero. *)
Example set_hz_can_store_a_zero_step :
  Double.leb (Double.of_Z 2000000000) Double.zero = false /\
  step (set_hz (Double.of_Z 2000000000) (@default_runner counter)) = 0.
Proof. vm_compute. split; reflexivity. Qed.

(** No public operation changes [safety_max_accumulator_overflow]: it is
    what the configuration said at construction. *)
Theorem overflow_multiplier_is_fixed {W : Type} (m : Machine W)
  (ops : list operation) :
  Config.safety_max_accumulator_overflow
    (m_config (runner (perform_all ops m)))
  = Config.safety_max_accumulator_overflow (m_config (runner m)).
Proof.
  unfold perform_all. revert m.
  induction ops as [|o ops IH]; intros m; [reflexivity|].
  cbn [fold_left]. rewrite IH. apply perform_keeps_overflow_multiplier.
Qed.

(** ** A time scale of zero *)

(** The conversion of a non-zero integer of fewer than 54 bits is a finite
    double, with the sign of the integer. *)
Lemma binary_round_small (s : bool) (p : positive) :
  Zpos p < 2 ^ 53 ->
  exists m e, binary_round Double.prec Double.emax s p 0 = S754_finite s m e.
Proof.
  intros Hp. pose proof (digits2_pos_bounds p) as Hd.
  set (d := Zpos (digits2_pos p)) in *.
  assert (Hd53 : 1 <= d <= 53).
  { split; [unfold d; lia|].
    destruct (Z.le_gt_cases d 53) as [Hle|Hgt]; [exact Hle|].
    pose proof (Z.pow_le_mono_r 2 53 (d - 1) ltac:(lia) ltac:(lia)). lia. }
  unfold binary_round, shl_align. fold d.
  assert (Hf : fexp Double.prec Double.emax (d + 0) = d - 53)
    by (unfold fexp, emin, Double.prec, Double.emax; lia).
  rewrite Hf.
  destruct (d - 53 - 0) as [|j|j] eqn:Hj; try lia.
  - assert (H53 : d = 53) by lia. rewrite H53 in Hd.
    change (53 - 1) with 52 in Hd.
    exists p, 0. apply binary_round_aux_normal; [exact Hd|lia].
  - assert (H53 : 53 = d + Zpos j) by lia.
    assert (Hm : 2 ^ 52 <= Zpos (Pos.iter xO p j) < 2 ^ 53).
    { rewrite pos_iter_xO.
      replace 52 with ((d - 1) + Zpos j) by lia.
      rewrite H53. rewrite !Z.pow_add_r by lia.
      pose proof (Z.pow_pos_nonneg 2 (Zpos j) ltac:(lia) ltac:(lia)). nia. }
    exists (Pos.iter xO p j), (d - 53).
    apply binary_round_aux_normal; [exact Hm|lia].
Qed.

Lemma mul_by_zero_truncates_to_zero (z : Z) (sg : bool) :
  - 2 ^ 53 < z < 2 ^ 53 ->
  Double.to_int64 (Double.mul (Double.of_Z z) (S754_zero sg)) = 0.
Proof.
  intros Hz. unfold Double.of_Z, binary_normalize.
  destruct z as [|p|p].
  - reflexivity.
  - destruct (binary_round_small false p ltac:(lia)) as (m & e & ->).
    reflexivity.
  - destruct (binary_round_small true p ltac:(lia)) as (m & e & ->).
    reflexivity.
Qed.

(** At a time scale of zero, of either sign, a call adds nothing to the
    accumulator, whatever the elapsed time (below [2 ^ 53] ns after the
    clamp): the steps taken and the accumulator left are those of a call
    with no elapsed time at all.  Unlike a paused call, such a call still
    pays off a backlog. *)
Theorem zero_time_scale_adds_nothing {W : Type} (m : Machine W) (sg : bool)
  (elapsed : nanoseconds) :
  time_scale (runner m) = S754_zero sg ->
  - 2 ^ 53 < clamp_delta (m_config (runner m)) elapsed < 2 ^ 53 ->
  let m' := snd (push_time elapsed m) in
  let idle := snd (push_time 0 m) in
  scaled_elapsed (m_config (runner m)) elapsed = 0 /\
  last_steps (runner m') = last_steps (runner idle) /\
  accumulator (runner m') = accumulator (runner idle).
Proof.
  unfold time_scale, push_time, last_steps, accumulator.
  intros Hts Hclamp. cbv zeta.
  assert (Hscaled : forall e,
            - 2 ^ 53 < clamp_delta (m_config (runner m)) e < 2 ^ 53 ->
            scaled_elapsed (m_config (runner m)) e = 0).
  { intros e He. unfold scaled_elapsed, scale_delta. rewrite Hts.
    change (negb (Double.eqb (S754_zero sg) Double.one)) with true.
    cbv iota. now apply mul_by_zero_truncates_to_zero. }
  assert (Hzero : scaled_elapsed (m_config (runner m)) 0 = 0).
  { apply Hscaled. unfold clamp_delta in *.
    destruct (Z.ltb_spec (Config.safety_max_delta (m_config (runner m))) 0);
      [|lia].
    destruct (Z.ltb_spec (Config.safety_max_delta (m_config (runner m)))
                elapsed); lia. }
  split; [now apply Hscaled|]. split.
  - destruct (m_paused (runner m)) eqn:Hp.
    + rewrite !advance_paused by exact Hp. reflexivity.
    + destruct (advance_running_numbers elapsed m Hp) as (-> & _).
      destruct (advance_running_numbers 0 m Hp) as (-> & _).
      rewrite Hscaled, Hzero by exact Hclamp. reflexivity.
  - destruct (m_paused (runner m)) eqn:Hp.
    + rewrite !advance_paused by exact Hp. reflexivity.
    + destruct (advance_running_numbers elapsed m Hp) as (_ & -> & _).
      destruct (advance_running_numbers 0 m Hp) as (_ & -> & _).
      rewrite Hscaled, Hzero by exact Hclamp. reflexivity.
Qed.

Lemma zero_time_scale_adds_nothing_witness :
  let m := on_runner (set_time_scale (Double.of_Z (-2)))
             (snd (push_time (ms 50)
                     (fresh (Some always_returns)
                        (config_100ms (ms 250) 8%N)))) in
  time_scale (runner m) = S754_zero false /\
  - 2 ^ 53 < clamp_delta (m_config (runner m)) (ms 70) < 2 ^ 53 /\
  scaled_elapsed (m_config (runner m)) (ms 70) = 0 /\
  accumulator (runner (snd (push_time (ms 70) m))) = ms 50.
Proof.
  set (m := on_runner _ _). cbv zeta.
  assert (Hclamp : - 2 ^ 53 < clamp_delta (m_config (runner m)) (ms 70)
                   < 2 ^ 53) by (vm_compute; split; reflexivity).
  split; [reflexivity|]. split; [exact Hclamp|].
  pose proof (zero_time_scale_adds_nothing m false (ms 70) eq_refl Hclamp)
    as H.
  cbv zeta in H. destruct H as (Hscaled & _ & Hacc).
  split; [exact Hscaled|]. rewrite Hacc. reflexivity.
Defined.

(** Whatever it is given, also a NaN, [set_time_scale] stores nothing that
    compares below zero: a negative value, the negative infinity included,
    is replaced by zero, and every other value is stored as it is. *)
Theorem set_time_scale_is_never_negative {W : Type}
  (r : FixedTimestepRunner W) (s : double) :
  Double.ltb (time_scale (set_time_scale s r)) Double.zero = false /\
  (Double.ltb s Double.zero = true ->
   time_scale (set_time_scale s r) = Double.zero) /\
  (Double.ltb s Double.zero = false -> time_scale (set_time_scale s r) = s) /\
  time_scale (set_time_scale (S754_infinity true) r) = Double.zero.
Proof.
  unfold time_scale, set_time_scale. cbn.
  destruct (Double.ltb s Double.zero) eqn:Hneg.
  - repeat split; try reflexivity. discriminate.
  - repeat split; try assumption. discriminate.
Qed.

(** ** The backlog a call can inherit *)

Lemma wrap64_below (x : Z) : 0 <= x -> Int64.wrap64 x <= x.
Proof.
  intros Hx. destruct (Z.le_gt_cases x Int64.max_signed) as [Hle|Hgt].
  - rewrite wrap64_id; [lia|].
    unfold Int64.in_range, Int64.min_signed in *. lia.
  - pose proof (wrap64_in_range x) as [_ Hmax]. lia.
Qed.

Lemma drain_in_range fuel c : forall steps acc,
  Int64.in_range acc -> Int64.in_range (snd (drain fuel c steps acc)).
Proof.
  induction fuel as [|fuel IH]; intros steps acc Hacc; cbn [drain].
  - exact Hacc.
  - destruct (andb _ _); [|exact Hacc].
    apply IH. apply wrap64_in_range.
Qed.

Section BacklogFacts.

Context {W : Type}.
Implicit Types (m : Machine W) (r : FixedTimestepRunner W).

(** What a call on a running runner with a positive step leaves is a tick
    count of 64 bits, at most [step * safety_max_accumulator_overflow]. *)
Lemma advance_running_leaves_bounded raw_elapsed m :
  m_paused (runner m) = false ->
  0 < Config.step (m_config (runner m)) ->
  let c := m_config (runner m) in
  let r' := runner (snd (advance raw_elapsed m)) in
  Int64.in_range (m_accumulator r') /\
  m_accumulator r'
  <= Config.step c * Z.of_N (Config.safety_max_accumulator_overflow c).
Proof.
  intros Hp Hstep. cbv zeta.
  destruct (advance_running_numbers raw_elapsed m Hp) as (_ & Ha & _).
  cbv zeta in Ha. rewrite Ha.
  set (c := m_config (runner m)) in *.
  pose proof (drain_in_range (N.to_nat (Config.safety_max_substeps c)) c 0%N
                (Int64.add (m_accumulator (runner m))
                   (scaled_elapsed c raw_elapsed))
                (wrap64_in_range _)) as Hd.
  pose proof (wrap64_in_range
                (Config.step c
                 * Z.of_N (Config.safety_max_accumulator_overflow c))) as Hm.
  pose proof (wrap64_below
                (Config.step c
                 * Z.of_N (Config.safety_max_accumulator_overflow c))
                ltac:(nia)) as Hb.
  fold (max_acc c) in Hm, Hb. unfold Int64.in_range in *. lia.
Qed.

End BacklogFacts.

(** The trim bounds the work that one call can leave to the next.  After
    any call on a running runner with a positive step, whatever it was fed,
    the next call takes at most [safety_max_accumulator_overflow] steps for
    the backlog, plus those that its own scaled elapsed time pays for; at a
    time scale of one that is at most the multiplier plus [safety_max_delta /
    step] steps. *)
Theorem backlog_is_bounded {W : Type} (m : Machine W)
  (e1 e2 : nanoseconds) :
  paused (runner m) = false ->
  0 < step (runner m) ->
  Int64.in_range
    (accumulator (runner (snd (push_time e1 m)))
     + scaled_elapsed (m_config (runner m)) e2) ->
  let c := m_config (runner m) in
  let overflow := Z.of_N (Config.safety_max_accumulator_overflow c) in
  let next := snd (push_time e2 (snd (push_time e1 m))) in
  Z.of_N (last_steps (runner next))
  <= Z.max 0 (overflow + scaled_elapsed c e2 / step (runner m)) /\
  (time_scale (runner m) = Double.one ->
   Z.of_N (last_steps (runner next))
   <= Z.max 0 (overflow + max_delta (runner m) / step (runner m))).
Proof.
  unfold paused, step, accumulator, last_steps, time_scale, max_delta,
    push_time.
  intros Hp Hstep Hsum. cbv zeta.
  destruct (advance_running_leaves_bounded e1 m Hp Hstep) as (_ & Hle).
  cbv zeta in Hle.
  destruct (advance_setup e1 m) as (_ & Hcfg & _ & Hp1 & _).
  cbv zeta in Hcfg, Hp1. rewrite Hp in Hp1.
  set (m1 := snd (advance e1 m)) in *.
  destruct (advance_capped_quotient e2 m1 Hp1) as (Hk & _);
    rewrite ?Hcfg; try assumption.
  cbv zeta in Hk. rewrite Hcfg in Hk.
  set (c := m_config (runner m)) in *.
  set (s := Config.step c) in *.
  set (ov := Z.of_N (Config.safety_max_accumulator_overflow c)) in *.
  set (d := scaled_elapsed c e2) in *.
  assert (Hq : (m_accumulator (runner m1) + d) / s <= ov + d / s).
  { rewrite <- (Z.div_add_l ov s d) by lia. apply Z.div_le_mono; lia. }
  assert (Hfirst : Z.of_N (m_last_steps (runner (snd (advance e2 m1))))
                   <= Z.max 0 (ov + d / s)).
  { revert Hk Hq. generalize ((m_accumulator (runner m1) + d) / s).
    generalize (d / s). lia. }
  split; [exact Hfirst|].
  intros Hts.
  assert (Hd : d <= Config.safety_max_delta c).
  { unfold d, scaled_elapsed, scale_delta. rewrite Hts.
    change (negb (Double.eqb Double.one Double.one)) with false. cbv iota.
    unfold clamp_delta. destruct (Z.ltb_spec (Config.safety_max_delta c) e2);
      lia. }
  assert (Hdq : d / s <= Config.safety_max_delta c / s)
    by (apply Z.div_le_mono; lia).
  revert Hfirst Hdq. generalize (d / s).
  generalize (Config.safety_max_delta c / s). lia.
Qed.

Lemma backlog_is_bounded_witness :
  paused (runner capped_machine) = false /\
  0 < step (runner capped_machine) /\
  accumulator (runner (snd (push_time (ms 5000) capped_machine))) = ms 300 /\
  (Z.of_N (last_steps
             (runner (snd (push_time 0
                             (snd (push_time (ms 5000) capped_machine))))))
   <= 3).
Proof.
  split; [reflexivity|]. split; [reflexivity|]. split; [reflexivity|].
  assert (Hsum : Int64.in_range
            (accumulator (runner (snd (push_time (ms 5000) capped_machine)))
             + scaled_elapsed (m_config (runner capped_machine)) 0))
    by (vm_compute; split; discriminate).
  pose proof (backlog_is_bounded capped_machine (ms 5000) 0 eq_refl eq_refl
                Hsum) as H.
  cbv zeta in H. destruct H as (Hb & _). exact Hb.
Defined.

(** ** Failures of the step function, with the exceptions followed *)



Section Containment.

Context {W : Type}.
Implicit Types (m : Machine W) (r : FixedTimestepRunner W).

Variable error_outcome : W -> outcome.
Hypothesis error_function_returns_always :
  forall w, error_outcome w = Returned.





End Containment.

Section Account.

Context {W : Type}.
Implicit Types (m : Machine W) (r : FixedTimestepRunner W).




End Account.



(** Where the containment ends: an error function that throws, called in
    the handler of scenario E, ends the program, because [advance] is
    [noexcept].  As long as the step function returns, the error function is
    not called and the call returns. *)
Example throwing_error_function_terminates :
  Noexcept.push_time error_function_throws (ms 200) throwing_machine
  = Terminates /\
  Noexcept.tick error_function_throws (1000 + ms 200)
    (snd (tick 1000 throwing_machine))
  = Terminates /\
  Noexcept.push_time error_function_throws (ms 1000) capped_machine
  = Returns (push_time (ms 1000) capped_machine).
Proof.
  split; [vm_compute; reflexivity|].
  split; vm_compute; reflexivity.
Qed.
